(** * Request dispatch of the Encore runtime (runtime/setup.go)

    A shallow embedding of [Setup], [handleRPC], [handler], [scrapeMetrics]
    and [setupLogging] from runtime/setup.go, together with a model of the
    parts of julienschmidt/httprouter (v1.3.0) these functions use:
    [httprouter.New], [Router.Handle] and [Router.Lookup], over the radix
    tree of its tree.go ([addRoute], [insertChild], [getValue]).  Go strings
    are byte strings, modelled as Stdlib [string] or as [list ascii]; a Go
    panic during [Setup] is [None]. *)

From Stdlib Require Import String Ascii List ZArith Bool Arith Lia Permutation.
Import ListNotations.
Open Scope string_scope.

(** ** Byte-string helpers (Go's [strings] package) *)

Definition nl : string := String (ascii_of_nat 10) EmptyString.
Definition dq : string := String (ascii_of_nat 34) EmptyString.

(** [strings.HasPrefix s prefix] *)
Fixpoint HasPrefix (s prefix : string) {struct prefix} : bool :=
  match prefix with
  | EmptyString => true
  | String c p =>
      match s with
      | String d s' => Ascii.eqb c d && HasPrefix s' p
      | EmptyString => false
      end
  end.

(** [s[n:]] *)
Definition slice_from (n : nat) (s : string) : string :=
  substring n (String.length s - n) s.

(** [strings.TrimPrefix s prefix] *)
Definition TrimPrefix (s prefix : string) : string :=
  if HasPrefix s prefix then slice_from (String.length prefix) s else s.

(** [strings.IndexByte s c]: the first index of [c] in [s], or -1. *)
Fixpoint IndexByte (s : string) (c : ascii) : Z :=
  match s with
  | EmptyString => (-1)%Z
  | String d s' =>
      if Ascii.eqb c d then 0%Z
      else let i := IndexByte s' c in
           if Z.eqb i (-1) then (-1)%Z else (i + 1)%Z
  end.

(** ** Configuration (runtime/config) *)

(** An [httprouter.Handle] value, identified by the function it denotes. *)
Record Handle := MkHandle { handle_id : nat }.

(** [httprouter.Params]: the (key, value) pairs of the matched parameters. *)
Definition Params := list (string * string).

Record Endpoint := MkEndpoint {
  Name : string;
  Path : string;
  Methods : list string;
  Handler : Handle
}.

Record Service := MkService {
  SvcName : string;
  Endpoints : list Endpoint
}.

Record ServerConfig := MkServerConfig { Services : list Service }.

(** ** Model of julienschmidt/httprouter: the radix tree (tree.go)

    One tree per method.  [node] is the struct of tree.go without two
    fields: [maxParams] only sizes the parameter slice [getValue] allocates,
    and [priority] only drives [incrementChildPrio], which reorders
    [children] and [indices] together; lookups and insertions find a child
    by its index byte, so that order changes nothing they compute.
    [countParams] returns a uint8 and saturates at 255; [dec8] is the uint8
    decrement [numParams--] of [addRoute]. *)

Definition bytes := list ascii.

Inductive nodeType := static | root | param | catchAll.

#[warnings="-register-all"]
Inductive node := mkNode {
  path : bytes;
  wildChild : bool;
  nType : nodeType;
  indices : bytes;
  children : list node;
  handle : option Handle
}.

Definition is_wild (c : ascii) : bool := Ascii.eqb c ":" || Ascii.eqb c "*".

Fixpoint count_wild (s : bytes) : nat :=
  match s with
  | [] => 0
  | c :: s' => if is_wild c then S (count_wild s') else count_wild s'
  end.

Definition countParams (s : bytes) : nat := Nat.min (count_wild s) 255.

Definition dec8 (x : nat) : nat := match x with 0 => 255 | S x' => x' end.

Definition bytes_eqb (a b : bytes) : bool := if list_eq_dec ascii_dec a b then true else false.

Definition slice (lo hi : nat) (s : bytes) : bytes := firstn (hi - lo) (skipn lo s).

Fixpoint lcp (a b : bytes) : nat :=
  match a, b with
  | x :: a', y :: b' => if Ascii.eqb x y then S (lcp a' b') else 0
  | _, _ => 0
  end.

Fixpoint wild_name_len (s : bytes) : option nat :=
  match s with
  | [] => Some 0
  | c :: s' =>
      if Ascii.eqb c "/" then Some 0
      else if is_wild c then None
      else option_map S (wild_name_len s')
  end.

Definition ends_in_slash (s : bytes) : bool :=
  match rev s with c :: _ => Ascii.eqb c "/" | [] => false end.

Definition new_node : node := mkNode [] false static [] [] None.

Fixpoint insert_loop (fullPath : bytes) (h : Handle) (n : node)
    (numParams offset i : nat) (rest : bytes) {struct rest} : option node :=
  match numParams with
  | O => Some (mkNode (skipn offset fullPath) (wildChild n) (nType n) (indices n)
                      (children n) (Some h))
  | S np =>
      match rest with
      | [] => None
      | c :: rest' =>
          if negb (is_wild c) then insert_loop fullPath h n numParams offset (S i) rest'
          else
            match wild_name_len rest' with
            | None => None
            | Some k =>
                let end_ := S i + k in
                match children n with
                | _ :: _ => None
                | [] =>
                    if Nat.eqb k 0 then None
                    else if Ascii.eqb c ":" then
                      if Nat.ltb i offset then None else
                      let npath := if Nat.ltb 0 i then slice offset i fullPath else path n in
                      let offset := if Nat.ltb 0 i then i else offset in
                      if Nat.ltb end_ (length fullPath) then
                        match insert_loop fullPath h new_node np end_ (S i) rest' with
                        | None => None
                        | Some g =>
                            Some (mkNode npath true (nType n) (indices n)
                                    [mkNode (slice offset end_ fullPath) false param [] [g] None]
                                    (handle n))
                        end
                      else
                        match insert_loop fullPath h (mkNode [] false param [] [] None)
                                np offset (S i) rest' with
                        | None => None
                        | Some c' => Some (mkNode npath true (nType n) (indices n) [c'] (handle n))
                        end
                    else
                      if negb (Nat.eqb end_ (length fullPath)) || Nat.ltb 1 numParams then None
                      else if ends_in_slash (path n) then None
                      else
                        match i with
                        | O => None
                        | S i' =>
                            if negb (Ascii.eqb (nth i' fullPath "0"%char) "/") then None
                            else if Nat.ltb i' offset then None
                            else Some (mkNode (slice offset i' fullPath) (wildChild n) (nType n)
                                         ["/"%char]
                                         [mkNode [] true catchAll []
                                            [mkNode (skipn i' fullPath) false catchAll [] [] (Some h)]
                                            None]
                                         (handle n))
                        end
                end
            end
      end
  end.

Definition insertChild (n : node) (numParams : nat) (pth : bytes) (h : Handle) : option node :=
  insert_loop pth h n numParams 0 0 pth.

Definition split_edge (n : node) (pth : bytes) (i : nat) : node :=
  mkNode (firstn i pth) false (nType n) [nth i (path n) "0"%char]
    [mkNode (skipn i (path n)) (wildChild n) static (indices n) (children n) (handle n)]
    None.

Definition grow (n : node) (pth : bytes) (numParams : nat) (h : Handle) : option node :=
  match pth with
  | [] => None
  | c :: _ =>
      if negb (is_wild c) then
        match insertChild new_node numParams pth h with
        | None => None
        | Some child =>
            Some (mkNode (path n) (wildChild n) (nType n) (indices n ++ [c])%list
                         (children n ++ [child])%list (handle n))
        end
      else insertChild n numParams pth h
  end.

Definition is_param (t : nodeType) : bool := match t with param => true | _ => false end.
Definition is_catchAll (t : nodeType) : bool := match t with catchAll => true | _ => false end.

Definition wild_ok (c0 : node) (pth : bytes) : bool :=
  let l := length (path c0) in
  Nat.leb l (length pth) && bytes_eqb (path c0) (firstn l pth)
  && negb (is_catchAll (nType c0))
  && (Nat.leb (length pth) l || Ascii.eqb (nth l pth "0"%char) "/").

Definition starts_with_slash (s : bytes) : bool :=
  match s with c :: _ => Ascii.eqb c "/" | [] => false end.

(** The loop over [n.indices] looking for the child of the next byte [c]:
    [None] when there is none, [Some None] when walking into it panics,
    [Some (Some cs')] the children with that child replaced. *)
Definition descend (f : node -> option node) (c : ascii) :=
  fix descend (is : bytes) (cs : list node) {struct cs} : option (option (list node)) :=
  match is, cs with
  | [], _ => None
  | b :: is', [] => if existsb (Ascii.eqb c) (b :: is') then Some None else None
  | b :: is', c1 :: cs' =>
      if Ascii.eqb b c then
        Some (match f c1 with None => None | Some c1' => Some (c1' :: cs') end)
      else
        match descend is' cs' with
        | None => None
        | Some None => Some None
        | Some (Some cs'') => Some (Some (c1 :: cs''))
        end
  end.

Fixpoint walk (n : node) (pth : bytes) (numParams : nat) (h : Handle) {struct n}
  : option node :=
  match n with
  | mkNode p wc nt idx ch hd =>
    let i := lcp pth p in
    if Nat.ltb i (length p) then
      let n1 := split_edge n pth i in
      if Nat.ltb i (length pth) then
        let pth' := skipn i pth in
        if is_param nt && starts_with_slash pth' then
          let c := mkNode (skipn i p) wc static idx ch hd in
          match grow (split_edge c pth' 0) pth' numParams h with
          | None => None
          | Some c' => Some (mkNode (path n1) false nt (indices n1) [c'] None)
          end
        else grow n1 pth' numParams h
      else Some (mkNode (path n1) false nt (indices n1) (children n1) (Some h))
    else
      match skipn i pth with
      | [] =>
          match hd with
          | Some _ => None
          | None => Some (mkNode p wc nt idx ch (Some h))
          end
      | (c :: _) as pth' =>
          if wc then
            match ch with
            | c0 :: cs =>
                if wild_ok c0 pth' then
                  match walk c0 pth' (dec8 numParams) h with
                  | None => None
                  | Some c0' => Some (mkNode p wc nt idx (c0' :: cs) hd)
                  end
                else None
            | [] => None
            end
          else if is_param nt && Ascii.eqb c "/" && Nat.eqb (length ch) 1 then
            match ch with
            | [d] =>
                match walk d pth' numParams h with
                | None => None
                | Some d' => Some (mkNode p wc nt idx [d'] hd)
                end
            | _ => None
            end
          else
            match descend (fun c1 => walk c1 pth' numParams h) c idx ch with
            | Some None => None
            | Some (Some ch') => Some (mkNode p wc nt idx ch' hd)
            | None => grow n pth' numParams h
            end
      end
  end.

Definition addRoute (n : node) (pth : bytes) (h : Handle) : option node :=
  let numParams := countParams pth in
  match path n, children n with
  | [], [] =>
      match insertChild n numParams pth h with
      | None => None
      | Some n' => Some (mkNode (path n') (wildChild n') root (indices n') (children n') (handle n'))
      end
  | _, _ => walk n pth numParams h
  end.

Fixpoint seg_len (s : bytes) : nat :=
  match s with
  | [] => 0
  | c :: s' => if Ascii.eqb c "/" then 0 else S (seg_len s')
  end.

Definition is_some {A} (o : option A) : bool := match o with Some _ => true | None => false end.

Definition find_child {A} (f : node -> A) (miss : A) (c : ascii) :=
  fix find_child (is : bytes) (cs : list node) {struct cs} : A :=
  match is, cs with
  | b :: is', c1 :: cs' => if Ascii.eqb b c then f c1 else find_child is' cs'
  | _, _ => miss
  end.

(** The loop of getValue over [n.indices] looking for a '/' child when the
    path ends at a node without a handle: only the redirect flag. *)
Fixpoint tsr_slash (is : bytes) (cs : list node) : bool :=
  match is, cs with
  | b :: is', c1 :: cs' =>
      if Ascii.eqb b "/" then
        (Nat.eqb (length (path c1)) 1 && is_some (handle c1))
        || (is_catchAll (nType c1)
            && match children c1 with l :: _ => is_some (handle l) | [] => false end)
      else tsr_slash is' cs'
  | _, _ => false
  end.

Fixpoint getValue (n : node) (pth : bytes) (p : list (bytes * bytes)) {struct n}
  : option Handle * list (bytes * bytes) * bool :=
  match n with
  | mkNode np wc nt idx ch hd =>
    if Nat.ltb (length np) (length pth) then
      if bytes_eqb (firstn (length np) pth) np then
        let pth := skipn (length np) pth in
        if negb wc then
          let c := nth 0 pth "0"%char in
          find_child (fun c1 => getValue c1 pth p) (None, p, bytes_eqb pth ["/"%char] && is_some hd) c idx ch
        else
          match ch with
          | mkNode cp _ cnt _ cch chd :: _ =>
              match cnt with
              | param =>
                  let end_ := seg_len pth in
                  let p := (p ++ [(skipn 1 cp, firstn end_ pth)])%list in
                  if Nat.ltb end_ (length pth) then
                    match cch with
                    | d :: _ => getValue d (skipn end_ pth) p
                    | [] => (None, p, Nat.eqb (length pth) (S end_))
                    end
                  else
                    match chd with
                    | Some h => (Some h, p, false)
                    | None =>
                        match cch with
                        | [d] => (None, p, bytes_eqb (path d) ["/"%char] && is_some (handle d))
                        | _ => (None, p, false)
                        end
                    end
              | catchAll => (chd, (p ++ [(skipn 2 cp, pth)])%list, false)
              | _ => (None, p, false)
              end
          | [] => (None, p, false)
          end
      else (None, p, false)
    else if bytes_eqb pth np then
      match hd with
      | Some h => (Some h, p, false)
      | None =>
          if bytes_eqb pth ["/"%char] && wc && negb (match nt with root => true | _ => false end)
          then (None, p, true)
          else
            (None, p, tsr_slash idx ch)
      end
    else
      (None, p, bytes_eqb pth ["/"%char]
                || (Nat.eqb (length np) (S (length pth))
                    && Ascii.eqb (nth (length pth) np "0"%char) "/"
                    && bytes_eqb pth (firstn (length pth) np) && is_some hd))
  end.

(** *** What a tree denotes

    Not code of httprouter: the specification the tree code is proved
    against.  [routes n] lists the (pattern, handle) pairs stored under [n];
    [pmatch pat path] is the matching rule httprouter documents, with the
    parameters it binds: ":name" matches the bytes up to the next "/" (not
    empty when the parameter ends the pattern), "*name" (after a "/", at the
    end) matches the rest of the path, its value keeping the leading "/";
    [matches] collects the routes matching a path; [wf] is the shape of the
    trees [addRoute] builds, and [gv_spec] what [getValue] returns on it. *)

Definition pfx (p : bytes) (rh : bytes * Handle) : bytes * Handle := ((p ++ fst rh)%list, snd rh).

Fixpoint routes (n : node) : list (bytes * Handle) :=
  match n with
  | mkNode p _ _ _ ch hd =>
      map (pfx p) ((match hd with Some h => [([], h)] | None => [] end) ++ flat_map routes ch)%list
  end.

Fixpoint pmatch (pat pth : bytes) {struct pat} : option (list (bytes * bytes)) :=
  match pat with
  | [] => match pth with [] => Some [] | _ :: _ => None end
  | c :: pat' =>
      if Ascii.eqb c ":" then
        pmatch_param pat' [] (firstn (seg_len pth) pth) (skipn (seg_len pth) pth)
      else if Ascii.eqb c "*" then Some [(pat', "/"%char :: pth)]
      else
        match pth with
        | d :: pth' => if Ascii.eqb c d then pmatch pat' pth' else None
        | [] => None
        end
  end
with pmatch_param (q name v rest : bytes) {struct q} : option (list (bytes * bytes)) :=
  match q with
  | [] => match v, rest with _ :: _, [] => Some [(name, v)] | _, _ => None end
  | d :: q' =>
      if Ascii.eqb d "/" then
        match rest with
        | e :: rest' => if Ascii.eqb e "/" then option_map (cons (name, v)) (pmatch q' rest') else None
        | [] => None
        end
      else pmatch_param q' (name ++ [d])%list v rest
  end.

Definition matches (rs : list (bytes * Handle)) (q : bytes) : list (Handle * list (bytes * bytes)) :=
  flat_map (fun rh => match pmatch (fst rh) q with Some ps => [(snd rh, ps)] | None => [] end) rs.

Definition starts (b : ascii) (rs : list (bytes * Handle)) : Prop :=
  Forall (fun rh => exists t, fst rh = b :: t) rs.

Definition kids_ok (P : node -> Prop) :=
  fix kids_ok (is : bytes) (cs : list node) {struct cs} : Prop :=
  match is, cs with
  | [], [] => True
  | b :: is', c :: cs' =>
      is_wild b = false /\ starts b (routes c)
      /\ (nType c = static \/ (b = "/"%char /\ nType c = catchAll))
      /\ P c /\ kids_ok is' cs'
  | _, _ => False
  end.

Fixpoint wf (n : node) : Prop :=
  match n with
  | mkNode p wc nt idx ch hd =>
    match nt with
    | static | root =>
        count_wild p = 0 /\
        (if wc then idx = [] /\ match ch with [c] => nType c = param /\ wf c | _ => False end
         else NoDup idx /\ kids_ok wf idx ch)
    | param =>
        wc = false
        /\ (exists name, p = ":"%char :: name /\ count_wild name = 0 /\ ~ In "/"%char name)
        /\ match ch with
           | [] => idx = []
           | [d] => nType d = static /\ wf d /\ starts "/" (routes d)
           | _ => False
           end
    | catchAll =>
        p = [] /\ wc = true /\ idx = [] /\ hd = None
        /\ exists name h, ch = [mkNode ("/"%char :: "*"%char :: name) false catchAll [] [] (Some h)]
    end
  end.

Fixpoint height (n : node) : nat :=
  match n with mkNode _ _ _ _ ch _ => S (list_max (map height ch)) end.

Definition gv_spec (rs : list (bytes * Handle)) (q : bytes) (acc : list (bytes * bytes))
    (res : option Handle * list (bytes * bytes) * bool) : Prop :=
  match res with
  | (Some h, ps, _) => exists qs, matches rs q = [(h, qs)] /\ ps = (acc ++ qs)%list
  | (None, _, _) => matches rs q = []
  end.

Definition pval (q : bytes) : bytes := firstn (seg_len q) q.
Definition prest (q : bytes) : bytes := skipn (seg_len q) q.

Definition walk_spec (n : node) : Prop :=
  forall pth np h n', walk n pth np h = Some n' ->
  ((nType n = static \/ nType n = root) -> np = count_wild pth ->
     wf n' /\ nType n' = nType n /\ Permutation (routes n') ((pth, h) :: routes n)) /\
  (nType n = param -> wild_ok n pth = true -> S np = count_wild pth ->
     wf n' /\ nType n' = param /\ Permutation (routes n') ((pth, h) :: routes n)).

(** ** Model of julienschmidt/httprouter: the router (router.go) *)

(** [httprouter.Router]: [trees] is the map from methods to root nodes, as
    an association list without repeated keys. *)
Record Router := MkRouter {
  trees : list (string * node);
  HandleOPTIONS : bool;
  RedirectFixedPath : bool;
  RedirectTrailingSlash : bool
}.

(** [r.trees[method]] *)
Fixpoint find_tree (t : list (string * node)) (m : string) : option node :=
  match t with
  | [] => None
  | (m', n) :: t' => if String.eqb m' m then Some n else find_tree t' m
  end.

(** [r.trees[method] = n] *)
Fixpoint set_tree (t : list (string * node)) (m : string) (n : node) : list (string * node) :=
  match t with
  | [] => [(m, n)]
  | (m', n') :: t' => if String.eqb m' m then (m, n) :: t' else (m', n') :: set_tree t' m n
  end.

(** [httprouter.New()] *)
Definition New : Router :=
  {| trees := []; HandleOPTIONS := true; RedirectFixedPath := true;
     RedirectTrailingSlash := true |}.

Definition with_trees (r : Router) (t : list (string * node)) : Router :=
  {| trees := t; HandleOPTIONS := HandleOPTIONS r;
     RedirectFixedPath := RedirectFixedPath r;
     RedirectTrailingSlash := RedirectTrailingSlash r |}.

(** [r.Handle(method, path, handle)]: panics ([None]) when [path] does not
    begin with "/" (an empty [path] panics on [path[0]]), else adds the
    route to the tree of [method], a new node when there is none. *)
Definition router_Handle (r : Router) (method path : string) (handle : Handle) : option Router :=
  match path with
  | String c _ =>
      if Ascii.eqb c "/" then
        let root_node := match find_tree (trees r) method with Some n => n | None => new_node end in
        match addRoute root_node (list_ascii_of_string path) handle with
        | Some n => Some (with_trees r (set_tree (trees r) method n))
        | None => None
        end
      else None
  | EmptyString => None
  end.

Definition to_params (ps : list (bytes * bytes)) : Params :=
  map (fun kv => (string_of_list_ascii (fst kv), string_of_list_ascii (snd kv))) ps.

(** [r.Lookup(method, path)]: the handle ([None] for nil), the parameters
    and the trailing-slash-redirect recommendation [tsr]. *)
Definition Lookup (r : Router) (method path : string) : option Handle * Params * bool :=
  match find_tree (trees r) method with
  | Some root_node =>
      let '(h, ps, tsr) := getValue root_node (list_ascii_of_string path) [] in
      (h, to_params ps, tsr)
  | None => (None, [], false)
  end.

(** The routes of the tree of a method, and the invariant of the trees the
    router holds. *)
Definition troutes (r : Router) (m : string) : list (bytes * Handle) :=
  match find_tree (trees r) m with Some n => routes n | None => [] end.

Definition tree_ok (n : node) : Prop :=
  wf n /\ nType n = root /\ routes n <> [] /\ starts "/"%char (routes n).

Definition router_ok (r : Router) : Prop :=
  forall m n, find_tree (trees r) m = Some n -> tree_ok n.

(** ** runtime/setup.go *)

Record Server := MkServer { router : Router }.

Definition wildcardMethod : string := "__ENCORE_WILDCARD__".

(** The loop of [handleRPC] over [endpoint.Methods]. *)
Fixpoint handle_methods (srv : Server) (ms : list string) (path : string)
    (h : Handle) : option Server :=
  match ms with
  | [] => Some srv
  | m :: ms' =>
      let m := if String.eqb m "*" then wildcardMethod else m in
      match router_Handle (router srv) m path h with
      | None => None
      | Some r => handle_methods (MkServer r) ms' path h
      end
  end.

(** [srv.handleRPC(service, endpoint)]; the log line is not modelled. *)
Definition handleRPC (srv : Server) (service : string) (endpoint : Endpoint)
  : option Server :=
  handle_methods srv (Methods endpoint) (Path endpoint) (Handler endpoint).

Fixpoint setup_endpoints (srv : Server) (svc : string) (eps : list Endpoint)
  : option Server :=
  match eps with
  | [] => Some srv
  | ep :: eps' =>
      match handleRPC srv svc ep with
      | None => None
      | Some srv' => setup_endpoints srv' svc eps'
      end
  end.

Fixpoint setup_services (srv : Server) (svcs : list Service) : option Server :=
  match svcs with
  | [] => Some srv
  | svc :: svcs' =>
      match setup_endpoints srv (SvcName svc) (Endpoints svc) with
      | None => None
      | Some srv' => setup_services srv' svcs'
      end
  end.

(** [Setup(cfg)]: the router part (logging setup and globals are not
    modelled); [None] when a registration panics. *)
Definition Setup (cfg : ServerConfig) : option Server :=
  let r := {| trees := trees New; HandleOPTIONS := false;
              RedirectFixedPath := false; RedirectTrailingSlash := false |} in
  setup_services (MkServer r) (Services cfg).

Record Request := MkRequest { Method : string; URL_Path : string }.

(** What a call of [handler] does to the response writer. *)
Inductive Effect :=
| Invoke (h : Handle) (p : Params)     (* h(w, req, p) *)
| ScrapeMetrics                        (* srv.scrapeMetrics(w, req) *)
| Respond (header : list (string * string)) (status : Z) (body : string).

(** [http.Error(w, msg, code)] *)
Definition http_Error (msg : string) (code : Z) : Effect :=
  Respond [("Content-Type", "text/plain; charset=utf-8");
           ("X-Content-Type-Options", "nosniff")] code (msg ++ nl).

(** The raw string literal written on a routing miss. *)
Definition notFoundBody : string :=
  "{" ++ nl ++
  "  " ++ dq ++ "code" ++ dq ++ ": " ++ dq ++ "unknown_endpoint" ++ dq ++ "," ++ nl ++
  "  " ++ dq ++ "message" ++ dq ++ ": " ++ dq ++ "endpoint not found" ++ dq ++ "," ++ nl ++
  "  " ++ dq ++ "details" ++ dq ++ ": null" ++ nl ++
  "}" ++ nl.

(** [srv.handler(w, req)]: the calls of [metrics.UnknownEndpoint(svc, api)]
    it makes, in order, and what it does to [w]. *)
Definition handler (srv : Server) (req : Request)
  : list (string * string) * Effect :=
  let ep := TrimPrefix (URL_Path req) "/" in
  if HasPrefix ep "__encore." then
    let api := slice_from (String.length "__encore.") ep in
    if String.eqb api "ScrapeMetrics" then ([], ScrapeMetrics)
    else ([], http_Error ("unknown internal endpoint: " ++ ep) 404)
  else
    let '(h, p, _) := Lookup (router srv) (Method req) (URL_Path req) in
    let '(h, p) :=
      match h with
      | None => let '(h', p', _) := Lookup (router srv) wildcardMethod (URL_Path req) in
                (h', p')
      | Some _ => (h, p)
      end in
    match h with
    | None =>
        let '(svc, api) :=
          let idx := IndexByte ep "." in
          if Z.eqb idx (-1) then ("unknown", "Unknown")
          else (substring 0 (Z.to_nat idx) ep, slice_from (Z.to_nat idx + 1) ep) in
        ([(svc, api)], Respond [("Content-Type", "application/json")] 404 notFoundBody)
    | Some h => ([], Invoke h p)
    end.

(** ** The registrations a configuration makes *)

(** The method [handleRPC] registers for a configured method. *)
Definition norm_method (m : string) : string :=
  if String.eqb m "*" then wildcardMethod else m.

(** One (method, path, handle) triple per method of an endpoint. *)
Definition endpoint_regs (ep : Endpoint) : list (string * string * Handle) :=
  map (fun m => (norm_method m, Path ep, Handler ep)) (Methods ep).

(** The (service name, endpoint) pairs, in the order [Setup] visits them. *)
Definition config_endpoints (cfg : ServerConfig) : list (string * Endpoint) :=
  flat_map (fun svc => map (fun ep => (SvcName svc, ep)) (Endpoints svc)) (Services cfg).

Definition registrations (cfg : ServerConfig) : list (string * string * Handle) :=
  flat_map (fun se => endpoint_regs (snd se)) (config_endpoints cfg).

Fixpoint register_all (srv : Server) (regs : list (string * string * Handle))
  : option Server :=
  match regs with
  | [] => Some srv
  | (m, p, h) :: regs' =>
      match router_Handle (router srv) m p h with
      | None => None
      | Some r => register_all (MkServer r) regs'
      end
  end.

(** The routes the registrations [regs] add to the tree of method [m]. *)
Definition regs_routes (m : string) (regs : list (string * string * Handle)) : list (bytes * Handle) :=
  flat_map (fun r => let '(m', p, h) := r in
                     if String.eqb m' m then [(list_ascii_of_string p, h)] else []) regs.

(** A registration whose path holds at most 255 wildcards (':' or '*'): up
    to there [countParams] counts them exactly. *)
Definition reg_fits (r : string * string * Handle) : bool :=
  let '(_, p, _) := r in Nat.leb (count_wild (list_ascii_of_string p)) 255.

Definition wildcards_fit (cfg : ServerConfig) : bool := forallb reg_fits (registrations cfg).

(** The path a request is routed on, without its leading ["/"]. *)
Definition endpoint_id (req : Request) : string := TrimPrefix (URL_Path req) "/".

(** The reserved internal namespace. *)
Definition reserved (req : Request) : bool := HasPrefix (endpoint_id req) "__encore.".

(** The body of a response the handler writes itself. *)
Definition response_body (e : Effect) : option string :=
  match e with Respond _ _ b => Some b | _ => None end.

Definition response_status (e : Effect) : option Z :=
  match e with Respond _ s _ => Some s | _ => None end.

(** A request path matches the pattern an endpoint declares, with these
    parameters ([pmatch]). *)
Definition path_matches (pattern path : string) : option Params :=
  option_map to_params (pmatch (list_ascii_of_string pattern) (list_ascii_of_string path)).

(** The handle an effect invokes. *)
Definition invoked (e : Effect) : option Handle :=
  match e with Invoke h _ => Some h | _ => None end.

(** ** Small configurations used by the examples *)

(** The two names a routing miss reports, as [handler] computes them. *)
Definition miss_names (ep : string) : string * string :=
  let idx := IndexByte ep "." in
  if Z.eqb idx (-1) then ("unknown", "Unknown")
  else (substring 0 (Z.to_nat idx) ep, slice_from (Z.to_nat idx + 1) ep).

Definition json_header : list (string * string) := [("Content-Type", "application/json")].

(** The server [Setup] starts from. *)
Definition setup_start : Server :=
  MkServer {| trees := []; HandleOPTIONS := false; RedirectFixedPath := false;
              RedirectTrailingSlash := false |}.

Definition h1 := MkHandle 1.
Definition h2 := MkHandle 2.

Definition ep_get := MkEndpoint "Get" "/orders/:id" ["GET"] h1.
Definition ep_any := MkEndpoint "Any" "/orders/:id" ["*"] h2.
Definition cfg_demo : ServerConfig :=
  MkServerConfig [MkService "orders" [ep_get; ep_any]].

(** A user endpoint, exact and wildcard, inside the reserved namespace. *)
Definition ep_res_get := MkEndpoint "Get" "/__encore.Foo" ["GET"] h1.
Definition ep_res_any := MkEndpoint "Any" "/__encore.Foo" ["*"] h2.
Definition cfg_reserved : ServerConfig :=
  MkServerConfig [MkService "svc" [ep_res_get; ep_res_any]].

(** A user endpoint at the metrics-scrape path. *)
Definition cfg_shadow : ServerConfig :=
  MkServerConfig [MkService "svc" [MkEndpoint "Scrape" "/__encore.ScrapeMetrics" ["GET"] h1]].

(** Two endpoints registering GET /a. *)
Definition ep_a1 := MkEndpoint "A1" "/a" ["GET"] h1.
Definition ep_a2 := MkEndpoint "A2" "/a" ["GET"] h2.
Definition cfg_dup : ServerConfig := MkServerConfig [MkService "svc" [ep_a1; ep_a2]].

(** GET /a alone, and GET /a next to a wildcard route for /:x/. *)
Definition cfg_slash : ServerConfig := MkServerConfig [MkService "svc" [ep_a1]].
Definition cfg_slash_overlap : ServerConfig :=
  MkServerConfig [MkService "svc" [ep_a1; MkEndpoint "Dir" "/:x/" ["*"] h2]].

(** The server [Setup] builds, or the empty one when it panics. *)
Definition srv_of (cfg : ServerConfig) : Server :=
  match Setup cfg with Some s => s | None => setup_start end.

Definition h3 := MkHandle 3.
Definition h4 := MkHandle 4.

Fixpoint rep (n : nat) (s : string) : string :=
  match n with O => EmptyString | S k => s ++ rep k s end.

(** A pattern of 255 parameters "/:a/:a/.../:a", and a path it matches. *)
Definition params255 : string := rep 255 "/:a".
Definition values255 : string := rep 255 "/v".

(** GET params255/xa, params255/xb and params255/x:c (256 wildcards). *)
Definition ovf_a := MkEndpoint "A" (params255 ++ "/xa") ["GET"] h1.
Definition ovf_b := MkEndpoint "B" (params255 ++ "/xb") ["GET"] h2.
Definition ovf_c := MkEndpoint "C" (params255 ++ "/x:c") ["GET"] h3.
Definition cfg_overflow : ServerConfig := MkServerConfig [MkService "svc" [ovf_a; ovf_b; ovf_c]].

(** The same, with params255/xa also under "*". *)
Definition ovf_any := MkEndpoint "Any" (params255 ++ "/xa") ["*"] h4.
Definition cfg_overflow_any : ServerConfig :=
  MkServerConfig [MkService "svc" [ovf_a; ovf_b; ovf_c; ovf_any]].

(** The three patterns under "*" only. *)
Definition ovf_star_a := MkEndpoint "A" (params255 ++ "/xa") ["*"] h1.
Definition ovf_star_b := MkEndpoint "B" (params255 ++ "/xb") ["*"] h2.
Definition ovf_star_c := MkEndpoint "C" (params255 ++ "/x:c") ["*"] h3.
Definition cfg_overflow_star : ServerConfig :=
  MkServerConfig [MkService "svc" [ovf_star_a; ovf_star_b; ovf_star_c]].

(** The three GET patterns, then GET params255/xa a second time. *)
Definition ovf_a2 := MkEndpoint "A2" (params255 ++ "/xa") ["GET"] h2.
Definition cfg_overflow_dup : ServerConfig :=
  MkServerConfig [MkService "svc" [ovf_a; ovf_b; ovf_c; ovf_a2]].

(** GET params255/:q/a, params255/:q/b, params255/x and params255/:q/:z,
    and a request no pattern of them matches. *)
Definition cfg_spurious : ServerConfig :=
  MkServerConfig [MkService "svc"
    [MkEndpoint "A" (params255 ++ "/:q/a") ["GET"] h1;
     MkEndpoint "B" (params255 ++ "/:q/b") ["GET"] h2;
     MkEndpoint "X" (params255 ++ "/x") ["GET"] h3;
     MkEndpoint "Z" (params255 ++ "/:q/:z") ["GET"] h4]].
Definition req_spurious : Request := MkRequest "GET" (values255 ++ "/:za").

(** Patterns the router accepts side by side: a static path and a parameter
    below it, a parameter after static text in one segment. *)
Definition cfg_users : ServerConfig :=
  MkServerConfig [MkService "users"
    [MkEndpoint "List" "/users/" ["GET"] h1;
     MkEndpoint "Get" "/users/:id" ["GET"] h2;
     MkEndpoint "ByName" "/user_:name" ["GET"] h3]].

(** An endpoint with the empty method. *)
Definition cfg_empty_method : ServerConfig :=
  MkServerConfig [MkService "svc" [MkEndpoint "E" "/e" [EmptyString] h1]].

(** ** The metrics scrape ([scrapeMetrics]) *)

(** A Go [(value, error)] pair: [Ok v] when [err == nil]. *)
Inductive GoResult (A : Type) :=
| Ok (v : A)
| Err (e : string).
Arguments Ok {A} v.
Arguments Err {A} e.

(** A Prometheus metric family; its encoding is given by the encoder. *)
Record MetricFamily := MkMetricFamily { mf_name : string }.

(** The response writer as far as status and body go (headers are not
    modelled): the status sent by the first [WriteHeader] or [Write], and
    the bytes written. *)
Record RW := MkRW { wrote_header : option Z; rw_body : string }.

Definition rw_fresh : RW := MkRW None EmptyString.

(** [w.WriteHeader(code)]: a second call is superfluous and ignored. *)
Definition WriteHeader (w : RW) (code : Z) : RW :=
  match wrote_header w with
  | Some _ => w
  | None => MkRW (Some code) (rw_body w)
  end.

(** [w.Write(b)]: sends status 200 first when no header was written. *)
Definition Write (w : RW) (b : string) : RW :=
  let w := match wrote_header w with None => WriteHeader w 200 | Some _ => w end in
  MkRW (wrote_header w) (rw_body w ++ b).

(** [http.Error(w, msg, code)] on the writer. *)
Definition Error (w : RW) (msg : string) (code : Z) : RW :=
  Write (WriteHeader w code) (msg ++ nl).

(** The status the client sees: 200 when the handler wrote nothing. *)
Definition final_status (w : RW) : Z :=
  match wrote_header w with Some c => c | None => 200%Z end.

(** One call [enc.Encode(mf)]: the [Write] calls it makes on [w], in order,
    then the error it returns ([None] for nil).  The FmtProtoDelim encoder
    writes the length varint and the message in two calls, and a failing
    [Write] is reported after it, so bytes can reach [w] before an error. *)
Record EncodeResult := MkEnc { enc_writes : list string; enc_err : option string }.

(** The loop over [mfs]. *)
Fixpoint encode_loop (enc : MetricFamily -> EncodeResult)
    (mfs : list MetricFamily) (w : RW) : RW :=
  match mfs with
  | [] => w
  | mf :: rest =>
      let w := fold_left Write (enc_writes (enc mf)) w in
      match enc_err (enc mf) with
      | Some e => Error w ("could not encode metrics: " ++ e) 500
      | None => encode_loop enc rest w
      end
  end.

(** [srv.scrapeMetrics(w, req)]; [gather] is the result of
    [metrics.Gather()]. *)
Definition scrapeMetrics (gather : GoResult (list MetricFamily))
    (enc : MetricFamily -> EncodeResult) (w : RW) : RW :=
  match gather with
  | Err e => Error w ("could not gather metrics: " ++ e) 500
  | Ok mfs => encode_loop enc mfs w
  end.

(** What serving a request writes, when [handler] writes it: the effect of
    [handler] carried out on the writer ([None] when a user handler takes
    over). *)
Definition serve (gather : GoResult (list MetricFamily))
    (enc : MetricFamily -> EncodeResult) (srv : Server) (req : Request) (w : RW)
  : option RW :=
  match snd (handler srv req) with
  | ScrapeMetrics => Some (scrapeMetrics gather enc w)
  | Respond _ st b => Some (Write (WriteHeader w st) b)
  | Invoke _ _ => None
  end.

(** ** Log forwarding ([setupLogging]) *)

Inductive LogEvent :=
| DialError (err : string)   (* log.Printf("could not dial logging socket: %v", err) *)
| Sleep1s                    (* time.Sleep(1 * time.Second) *)
| Fatal (msg : string).      (* log.Fatal...: the process exits *)

(** The dial loop: [dial i] is the error of attempt [i] ([None] when
    [net.DialUnix] succeeds).  [k] counts the attempts left after attempt
    [i]; the loop starts at [i = 0], [k = 120], so [i + k = 120] throughout
    and the source's test [i == 120] is [k = 0].  Returns the events and the
    attempt whose socket is kept ([None] when the process exits). *)
Fixpoint dial_loop (dial : nat -> option string) (i k : nat)
  : list LogEvent * option nat :=
  match dial i with
  | None => ([], Some i)
  | Some err =>
      match k with
      | O => ([Fatal ("could not setup logging: " ++ err)], None)
      | S k' =>
          let '(evs, r) := dial_loop dial (S i) k' in
          (DialError err :: Sleep1s :: evs, r)
      end
  end.

Inductive LoggingOutcome := Redirected | Exited.

(** [setupLogging()]: [file_err] is the error of [sock.File()], [dup2 fd]
    the error of [syscall.Dup2(int(out.Fd()), fd)]. *)
Definition setupLogging (dial : nat -> option string) (file_err : option string)
    (dup2 : nat -> option string) : list LogEvent * LoggingOutcome :=
  let '(evs, sock) := dial_loop dial 0 120 in
  match sock with
  | None => (evs, Exited)
  | Some _ =>
      match file_err with
      | Some e => ((evs ++ [Fatal ("could not setup logging: " ++ e)])%list, Exited)
      | None =>
          match dup2 1 with
          | Some e => ((evs ++ [Fatal ("could not redirect stdout: " ++ e)])%list, Exited)
          | None =>
              match dup2 2 with
              | Some e => ((evs ++ [Fatal ("could not redirect stderr: " ++ e)])%list, Exited)
              | None => (evs, Redirected)
              end
          end
      end
  end.

(** The bytes of several writes, in order. *)
Definition concat_bytes (bs : list string) : string := fold_right String.append EmptyString bs.

(** The writes the encoder makes for several families. *)
Definition all_writes (enc : MetricFamily -> EncodeResult) (mfs : list MetricFamily) : list string :=
  flat_map (fun mf => enc_writes (enc mf)) mfs.

(** The error text of a failed dial attempt. *)
Definition dial_err (o : option string) : string :=
  match o with Some e => e | None => EmptyString end.

(** Concrete metric families and encoders for the examples: [enc_fail_b]
    writes part of "b" and then fails. *)
Definition mf_a := MkMetricFamily "a".
Definition mf_b := MkMetricFamily "b".
Definition enc_ok (mf : MetricFamily) : EncodeResult := MkEnc ["<" ++ mf_name mf ++ ">"] None.
Definition enc_fail_b (mf : MetricFamily) : EncodeResult :=
  if String.eqb (mf_name mf) "b" then MkEnc ["<b"] (Some "bad family") else enc_ok mf.

(** A socket that answers on the third attempt. *)
Definition dial_third (i : nat) : option string :=
  if Nat.ltb i 2 then Some "no such file" else None.

(** * Correctness of the httprouter model

    The tree [addRoute] builds is well formed and holds exactly the routes
    registered ([routes]); [getValue] on it finds the one route whose
    pattern matches the path ([matches]), with the parameters that pattern
    binds.  The router lifts this to one tree per method. *)

Section TreeFacts.
Local Open Scope list_scope.

Lemma count_wild_app a b : count_wild (a ++ b) = count_wild a + count_wild b.
Proof. induction a as [|c a IH]; simpl; [reflexivity|]. destruct (is_wild c); rewrite IH; reflexivity. Qed.

Lemma count_wild_split k s : count_wild s = count_wild (firstn k s) + count_wild (skipn k s).
Proof. rewrite <- count_wild_app, firstn_skipn. reflexivity. Qed.

Lemma count_wild_zero_In s c : count_wild s = 0 -> In c s -> is_wild c = false.
Proof.
  induction s as [|d s IH]; simpl; [tauto|]. destruct (is_wild d) eqn:E; [discriminate|].
  intros H [->|Hi]; auto.
Qed.

Lemma bytes_eqb_true a b : bytes_eqb a b = true <-> a = b.
Proof. unfold bytes_eqb. destruct (list_eq_dec ascii_dec a b); split; congruence. Qed.

Lemma lcp_le a b : lcp a b <= length a /\ lcp a b <= length b.
Proof.
  revert b; induction a as [|x a IH]; intros [|y b]; simpl; try lia.
  destruct (Ascii.eqb x y); simpl; [specialize (IH b)|]; lia.
Qed.

Lemma lcp_firstn a b : firstn (lcp a b) a = firstn (lcp a b) b.
Proof.
  revert b; induction a as [|x a IH]; intros [|y b]; simpl; try reflexivity.
  destruct (Ascii.eqb x y) eqn:E; simpl; [|reflexivity].
  apply Ascii.eqb_eq in E; subst. rewrite IH. reflexivity.
Qed.

Lemma lcp_nth a b d : lcp a b < length a -> lcp a b < length b -> nth (lcp a b) a d <> nth (lcp a b) b d.
Proof.
  revert b; induction a as [|x a IH]; intros [|y b]; simpl; try lia.
  destruct (Ascii.eqb x y) eqn:E; simpl.
  - intros. apply IH; lia.
  - intros _ _ ->. rewrite Ascii.eqb_refl in E. discriminate.
Qed.

Lemma lcp_app p r : lcp (p ++ r) p = length p.
Proof. induction p as [|x p IH]; simpl; [destruct r; reflexivity|]. rewrite Ascii.eqb_refl, IH. reflexivity. Qed.

Lemma nth_In_wild s k d : count_wild s = 0 -> k < length s -> is_wild (nth k s d) = false.
Proof. intros H Hk. apply (count_wild_zero_In s); [assumption|]. apply nth_In; assumption. Qed.

(** ** Patterns *)

Lemma pmatch_static p r q : count_wild p = 0 -> pmatch (p ++ r) (p ++ q) = pmatch r q.
Proof.
  induction p as [|c p IH]; simpl; [reflexivity|].
  unfold is_wild. destruct (Ascii.eqb c ":") eqn:E1; [discriminate|].
  destruct (Ascii.eqb c "*") eqn:E2; [discriminate|]. simpl.
  rewrite Ascii.eqb_refl. exact IH.
Qed.

Lemma pmatch_static_miss p r q : count_wild p = 0 -> (forall q', q <> p ++ q') -> pmatch (p ++ r) q = None.
Proof.
  revert q; induction p as [|c p IH]; intros q; simpl.
  - intros _ H. exfalso. exact (H q eq_refl).
  - unfold is_wild. destruct (Ascii.eqb c ":") eqn:E1; [discriminate|].
    destruct (Ascii.eqb c "*") eqn:E2; [discriminate|]. simpl. intros Hc Hq.
    destruct q as [|d q]; [reflexivity|].
    destruct (Ascii.eqb c d) eqn:E3; [|reflexivity]. apply Ascii.eqb_eq in E3; subst.
    apply IH; [assumption|]. intros q' ->. exact (Hq q' eq_refl).
Qed.

Lemma pmatch_head_miss b t q : is_wild b = false -> (q = [] \/ exists c t', q = c :: t' /\ c <> b) ->
  pmatch (b :: t) q = None.
Proof.
  unfold is_wild. intros Hb Hq. simpl.
  destruct (Ascii.eqb b ":"); [discriminate|]. destruct (Ascii.eqb b "*"); [discriminate|].
  destruct Hq as [->|(c & t' & -> & Hc)]; [reflexivity|].
  destruct (Ascii.eqb b c) eqn:E; [|reflexivity]. apply Ascii.eqb_eq in E. congruence.
Qed.

(** The value of a parameter runs to the next '/' of the path. *)
Lemma pmatch_param_name name acc v rest r :
  ~ In "/"%char name ->
  pmatch_param (name ++ r) acc v rest = pmatch_param r (acc ++ name) v rest.
Proof.
  revert acc; induction name as [|d name IH]; intros acc Hn; simpl.
  - rewrite app_nil_r. reflexivity.
  - destruct (Ascii.eqb d "/") eqn:E.
    + apply Ascii.eqb_eq in E. subst. exfalso. apply Hn. left. reflexivity.
    + rewrite IH; [|intros Hi; apply Hn; right; exact Hi]. rewrite <- app_assoc. reflexivity.
Qed.

Lemma seg_len_spec q :
  seg_len q <= length q /\ ~ In "/"%char (firstn (seg_len q) q)
  /\ (skipn (seg_len q) q = [] \/ exists t, skipn (seg_len q) q = "/"%char :: t).
Proof.
  induction q as [|c q IH]; simpl; [intuition|].
  destruct (Ascii.eqb c "/") eqn:E; simpl.
  - apply Ascii.eqb_eq in E; subst. split; [lia|]. split; [tauto|]. right. eexists; reflexivity.
  - destruct IH as (H1 & H2 & H3). split; [lia|]. split; [|exact H3].
    intros [Hc|Hi]; [subst; rewrite Ascii.eqb_refl in E; discriminate|tauto].
Qed.

Lemma pmatch_param_end name q :
  ~ In "/"%char name ->
  pmatch (":"%char :: name) q =
  match pval q, prest q with _ :: _, [] => Some [(name, pval q)] | _, _ => None end.
Proof.
  intros Hn. simpl. rewrite <- (app_nil_r name) at 1. rewrite pmatch_param_name by exact Hn.
  reflexivity.
Qed.

Lemma pmatch_param_slash name r q :
  ~ In "/"%char name ->
  pmatch (":"%char :: name ++ "/"%char :: r) q =
  match prest q with
  | [] => None
  | _ :: rest' => option_map (cons (name, pval q)) (pmatch r rest')
  end.
Proof.
  intros Hn. simpl. rewrite pmatch_param_name by exact Hn. simpl.
  destruct (seg_len_spec q) as (_ & _ & [H|[t H]]); unfold prest, pval; rewrite H; [reflexivity|].
  reflexivity.
Qed.

(** ** Matching a list of routes *)

Lemma matches_app a b q : matches (a ++ b) q = matches a q ++ matches b q.
Proof. unfold matches. apply flat_map_app. Qed.

Lemma matches_perm a b q : Permutation a b -> Permutation (matches a q) (matches b q).
Proof.
  intros H. induction H; simpl; auto.
  - apply Permutation_app_head. assumption.
  - unfold matches. simpl. rewrite !app_assoc. apply Permutation_app_tail, Permutation_app_comm.
  - eapply Permutation_trans; eassumption.
Qed.

Lemma matches_pfx p rs q : count_wild p = 0 -> matches (map (pfx p) rs) (p ++ q) = matches rs q.
Proof.
  intros Hp. induction rs as [|[r h] rs IH]; [reflexivity|].
  unfold matches in *. simpl. rewrite IH. unfold pfx; simpl. rewrite pmatch_static by exact Hp. reflexivity.
Qed.

Lemma matches_pfx_miss p rs q : count_wild p = 0 -> (forall q', q <> p ++ q') -> matches (map (pfx p) rs) q = [].
Proof.
  intros Hp Hq. induction rs as [|[r h] rs IH]; [reflexivity|].
  unfold matches in *. simpl. rewrite IH. unfold pfx; simpl. rewrite pmatch_static_miss by assumption. reflexivity.
Qed.

Lemma matches_starts_miss b rs q : starts b rs -> is_wild b = false ->
  (q = [] \/ exists c t', q = c :: t' /\ c <> b) -> matches rs q = [].
Proof.
  intros Hs Hb Hq. induction Hs as [|[r h] rs [t Ht] _ IH]; [reflexivity|].
  unfold matches in *. simpl in *. subst r. rewrite IH, pmatch_head_miss by assumption. reflexivity.
Qed.

Lemma matches_nil q : matches [] q = [].
Proof. reflexivity. Qed.

Lemma matches_own h q : matches [([], h)] q = match q with [] => [(h, [])] | _ :: _ => [] end.
Proof. destruct q; reflexivity. Qed.

Lemma matches_cons rh rs q : matches (rh :: rs) q = matches [rh] q ++ matches rs q.
Proof. unfold matches. simpl. rewrite app_nil_r. reflexivity. Qed.

Lemma matches_map_param name rs q :
  ~ In "/"%char name -> starts "/" rs ->
  matches (map (pfx (":"%char :: name)) rs) q =
  match prest q with
  | [] => []
  | _ :: rest' => map (fun hp => (fst hp, (name, pval q) :: snd hp)) (matches rs (prest q))
  end.
Proof.
  intros Hn Hs. unfold bytes in *. induction Hs as [|[r h] rs [t Ht] _ IH].
  - simpl. destruct (prest q); reflexivity.
  - simpl in Ht. subst r. rewrite map_cons, matches_cons, IH, (matches_cons _ rs).
    unfold matches at 1 3. unfold pfx. cbn [fst snd app flat_map].
    rewrite pmatch_param_slash by exact Hn.
    destruct (prest q) as [|e rest'] eqn:E; [reflexivity|].
    destruct (seg_len_spec q) as (_ & _ & [H|[t' H]]); fold (prest q) in H; rewrite E in H; [discriminate|].
    injection H as -> ->. simpl.
    destruct (pmatch t t'); reflexivity.
Qed.

Lemma height_child c p wc nt idx ch hd : In c ch -> height c < height (mkNode p wc nt idx ch hd).
Proof.
  intros Hc. simpl. assert (height c <= list_max (map height ch)); [|lia].
  assert (Hf := proj1 (list_max_le (map height ch) (list_max (map height ch))) (le_n _)).
  rewrite Forall_forall in Hf. apply Hf, in_map, Hc.
Qed.

Lemma node_strong (P : node -> Prop) :
  (forall n, (forall m, height m < height n -> P m) -> P n) -> forall n, P n.
Proof.
  intros H n. remember (height n) as k. revert n Heqk.
  induction (Wf_nat.lt_wf k) as [k _ IH]. intros n ->. apply H. intros m Hm. exact (IH _ Hm m eq_refl).
Qed.

Lemma gv_spec_ext rs rs' q q' acc r : matches rs q = matches rs' q' -> gv_spec rs q acc r -> gv_spec rs' q' acc r.
Proof. intros E. destruct r as [[[h|] ps] b]; simpl; rewrite E; auto. Qed.

Lemma starts_flat_miss P c t is cs :
  kids_ok P is cs -> ~ In c is -> matches (flat_map routes cs) (c :: t) = [].
Proof.
  revert is; induction cs as [|c1 cs IH]; intros [|b is]; simpl; try tauto.
  intros (Hb & Hs & _ & _ & Hk) Hc. rewrite matches_app, (IH is Hk) by (intros Hi; apply Hc; right; exact Hi).
  rewrite (matches_starts_miss b (routes c1)); [reflexivity|exact Hs|exact Hb|].
  right. exists c, t. split; [reflexivity|]. intros E. apply Hc. left. congruence.
Qed.

Lemma kids_ok_nil_path P is cs : kids_ok P is cs -> matches (flat_map routes cs) [] = [].
Proof.
  revert is; induction cs as [|c1 cs IH]; intros [|b is]; simpl; try tauto.
  intros (Hb & Hs & _ & _ & Hk). rewrite matches_app, (IH is Hk), (matches_starts_miss b) by auto.
  reflexivity.
Qed.

Lemma find_child_ok q' c t acc b idx ch :
  q' = c :: t -> NoDup idx -> kids_ok wf idx ch ->
  (forall c1, In c1 ch -> wf c1 ->
     (nType c1 = static \/ (nType c1 = catchAll /\ exists t', q' = "/"%char :: t')) ->
     gv_spec (routes c1) q' acc (getValue c1 q' acc)) ->
  gv_spec (flat_map routes ch) q' acc
    (find_child (fun c1 => getValue c1 q' acc) (None, acc, b) c idx ch).
Proof.
  intros Hq. revert idx; induction ch as [|c1 cs IH]; intros [|b1 is]; simpl; try tauto.
  intros Hnd (Hb & Hs & Hty & Hw & Hk) Hgv.
  inversion Hnd as [|? ? Hni Hnd']; subst.
  destruct (Ascii.eqb b1 c) eqn:E.
  - apply Ascii.eqb_eq in E; subst b1.
    eapply gv_spec_ext; [|apply Hgv; [left; reflexivity|exact Hw|]].
    + rewrite matches_app, (starts_flat_miss wf c t is cs Hk Hni), app_nil_r. reflexivity.
    + destruct Hty as [Hty|[-> Hty]]; [left; exact Hty|right; split; [exact Hty|exists t; reflexivity]].
  - eapply gv_spec_ext; [|apply IH; auto].
    rewrite matches_app, (matches_starts_miss b1 (routes c1)); auto.
    right. exists c, t. split; [reflexivity|]. intros ->. rewrite Ascii.eqb_refl in E. discriminate.
Qed.

Lemma matches_param_node c q :
  wf c -> nType c = param ->
  exists name, path c = ":"%char :: name /\ ~ In "/"%char name /\
  matches (routes c) q =
    (match handle c with
     | Some h => match pval q, prest q with _ :: _, [] => [(h, [(name, pval q)])] | _, _ => [] end
     | None => []
     end) ++
    (match children c with
     | [d] => match prest q with
              | [] => []
              | _ :: _ => map (fun hp => (fst hp, (name, pval q) :: snd hp)) (matches (routes d) (prest q))
              end
     | _ => []
     end).
Proof.
  destruct c as [cp cwc cnt cidx cch chd]. simpl. intros Hw ->.
  destruct Hw as (_ & (name & -> & _ & Hn) & Hch). exists name. split; [reflexivity|]. split; [exact Hn|].
  rewrite map_app, matches_app. f_equal.
  - destruct chd as [h|]; [|reflexivity]. unfold matches, pfx. simpl fst. simpl snd.
    cbn [map flat_map fst snd]. rewrite app_nil_r, (app_nil_r (":"%char :: name)).
    rewrite pmatch_param_end by exact Hn.
    destruct (pval q), (prest q); reflexivity.
  - destruct cch as [|d [|d' cs]]; [reflexivity| |contradiction].
    destruct Hch as (_ & _ & Hs). simpl. rewrite app_nil_r. apply matches_map_param; assumption.
Qed.

Lemma prest_nil_pval q : prest q = [] -> pval q = q.
Proof.
  unfold prest, pval. intros H. rewrite <- (app_nil_r (firstn (seg_len q) q)), <- H. apply firstn_skipn.
Qed.

Lemma gv_spec_param rs rs' q q' acc x r :
  gv_spec rs q (acc ++ [x]) r ->
  matches rs' q' = map (fun hp => (fst hp, x :: snd hp)) (matches rs q) ->
  gv_spec rs' q' acc r.
Proof.
  intros H E. destruct r as [[[h|] ps] b]; simpl in *; rewrite E.
  - destruct H as (qs & -> & ->). exists (x :: qs). split; [reflexivity|]. rewrite <- app_assoc. reflexivity.
  - rewrite H. reflexivity.
Qed.

Lemma not_prefix_len (p q : bytes) : length q <= length p -> q <> p -> forall q', q <> p ++ q'.
Proof.
  intros Hl Hne q' ->. rewrite length_app in Hl. destruct q'; [rewrite app_nil_r in Hne; auto|simpl in Hl; lia].
Qed.

Lemma not_prefix_firstn (p q : bytes) : bytes_eqb (firstn (length p) q) p = false -> forall q', q <> p ++ q'.
Proof.
  intros H q' ->. assert (E : forall p0 : bytes, firstn (length p0) (p0 ++ q') = p0) by (induction p0; simpl; congruence).
  rewrite E in H. unfold bytes_eqb in H. destruct (list_eq_dec ascii_dec p p); congruence.
Qed.

Lemma getValue_ok : forall n, wf n -> forall q acc,
  (nType n = static \/ nType n = root \/ (nType n = catchAll /\ exists t, q = "/"%char :: t)) ->
  gv_spec (routes n) q acc (getValue n q acc).
Proof.
  induction n as [n IH] using node_strong.
  destruct n as [p wc nt idx ch hd]. intros Hw q acc Hty.
  destruct nt; simpl nType in Hty.
  3: { destruct Hty as [H|[H|[H _]]]; discriminate. }
  3: { destruct Hty as [H|[H|[_ [t ->]]]]; try discriminate.
       destruct Hw as (-> & -> & -> & -> & name & h & ->).
       simpl. exists [(name, "/"%char :: t)]. rewrite app_nil_r. split; reflexivity. }
  all: simpl in Hw; destruct Hw as [Hp Hw]; clear Hty; simpl getValue.
  all: destruct (Nat.ltb (length p) (length q)) eqn:Hlt.
  all: try (destruct (bytes_eqb (firstn (length p) q) p) eqn:Hpre;
            [|simpl; apply matches_pfx_miss; [exact Hp|apply not_prefix_firstn; exact Hpre]]).
  all: try (destruct (bytes_eqb q p) eqn:Heq;
            [apply bytes_eqb_true in Heq; subst q
            |simpl; apply matches_pfx_miss; [exact Hp|apply not_prefix_len;
               [apply Nat.ltb_ge; exact Hlt|intros E; subst; unfold bytes_eqb in Heq;
                destruct (list_eq_dec ascii_dec p p); congruence]]]).
  (* the path goes on below this node *)
  1,3: apply bytes_eqb_true in Hpre; apply Nat.ltb_lt in Hlt;
       remember (skipn (length p) q) as q' eqn:Eq';
       assert (Hq : q = p ++ q') by (subst q'; rewrite <- Hpre at 1; symmetry; apply firstn_skipn);
       destruct q' as [|c t]; [subst q; rewrite length_app in Hlt; simpl in Hlt; lia|];
       apply gv_spec_ext with (rs := flat_map routes ch) (q := c :: t);
       [simpl routes; rewrite Hq, matches_pfx, matches_app by exact Hp;
        destruct hd; reflexivity|];
       clear Hpre Hlt Eq'; subst q.
  1,2: destruct wc; cbn [negb].
  2,4: destruct Hw as [Hnd Hk]; cbn [nth];
       apply find_child_ok with (t := t); [reflexivity|exact Hnd|exact Hk|];
       intros c1 Hin Hw1 Hty1; apply IH; [apply height_child; exact Hin|exact Hw1|];
       destruct Hty1 as [H|H]; [left; exact H|right; right; exact H].
  1,2: destruct Hw as [-> Hch]; destruct ch as [|c0 [|c0' cs]]; try contradiction;
       destruct Hch as [Hty0 Hw0];
       assert (Hne : c :: t <> []) by discriminate;
       revert Hne; generalize (c :: t) as q'; intros q' Hne;
       pose proof (matches_param_node c0 q' Hw0 Hty0) as (name & Hcp & Hn & Hm);
       assert (Hh : forall m, height m < height c0 -> height m < height (mkNode p true static [] [c0] hd))
         by (intros m Hlt; pose proof (height_child c0 p true static [] [c0] hd (or_introl eq_refl)); lia);
       destruct c0 as [cp cwc cnt cidx cch chd]; simpl in Hty0, Hcp; cbn [handle children] in Hm; subst cnt cp;
       cbn [flat_map]; rewrite app_nil_r; cbn iota beta;
       destruct (Nat.ltb (seg_len q') (length q')) eqn:Hs.
  1,3: apply Nat.ltb_lt in Hs;
       assert (Hpr : prest q' <> [])
         by (unfold prest; intros E; apply (f_equal (@length _)) in E; rewrite length_skipn in E;
             simpl in E; lia);
       destruct cch as [|d [|d' cs]];
       [unfold gv_spec; cbn beta iota; rewrite Hm;
        destruct chd; [destruct (pval q'); [|destruct (prest q'); [contradiction|]]|]; reflexivity
       |simpl in Hw0; destruct Hw0 as (_ & _ & Htyd & Hwd & Hsd);
        apply (gv_spec_param (routes d) _ (prest q') q' acc (name, pval q'));
        [apply IH; [apply Hh, height_child; left; reflexivity|exact Hwd|left; exact Htyd]
        |rewrite Hm; destruct (prest q'); [contradiction|];
         destruct chd; [destruct (pval q')|]; reflexivity]
       |simpl in Hw0; destruct Hw0 as (_ & _ & [])].
  1,2: apply Nat.ltb_ge in Hs;
       assert (Hpr : prest q' = []) by (apply skipn_all2; exact Hs);
       assert (Hpv : pval q' = q') by (apply prest_nil_pval; exact Hpr);
       change (firstn (seg_len q') q') with (pval q');
       destruct chd as [h|];
       [unfold gv_spec; cbn beta iota; exists [(name, pval q')]; rewrite Hm, Hpr, Hpv;
        destruct q' as [|x q'']; [congruence|];
        destruct cch as [|d [|d' cs]]; split; reflexivity
       |destruct cch as [|d [|d' cs]]; unfold gv_spec; cbn beta iota; rewrite Hm; try rewrite Hpr; reflexivity].
  (* the path ends at this node *)
  all: assert (Hkids : matches (flat_map routes ch) [] = []);
       [destruct wc;
        [destruct Hw as [-> Hch]; destruct ch as [|c0 [|c0' cs]]; try contradiction;
         destruct Hch as [Hty0 Hw0];
         pose proof (matches_param_node c0 [] Hw0 Hty0) as (name & _ & _ & Hm);
         cbn [flat_map]; rewrite app_nil_r, Hm;
         destruct (handle c0), (children c0) as [|d [|]]; reflexivity
        |destruct Hw as [_ Hk]; exact (kids_ok_nil_path _ _ _ Hk)]
       |].
  all: apply gv_spec_ext with (rs := match hd with Some h => [([], h)] | None => [] end) (q := []);
       [pose proof (matches_pfx p (match hd with Some h => [([], h)] | None => [] end ++ flat_map routes ch) [] Hp) as E;
        rewrite (app_nil_r p) in E; simpl routes; rewrite E, matches_app, Hkids, app_nil_r; reflexivity|].
  all: destruct hd as [h|];
       [exists []; rewrite app_nil_r; split; reflexivity
       |destruct (_ && _ && _); reflexivity].
Qed.

(** ** Slices of the path *)

Lemma slice_empty lo hi (s : bytes) : hi <= lo -> slice lo hi s = [].
Proof. intros H. unfold slice. replace (hi - lo) with 0 by lia. reflexivity. Qed.

Lemma skipn_slice lo hi (s : bytes) : lo <= hi -> skipn lo s = slice lo hi s ++ skipn hi s.
Proof.
  intros H. unfold slice. rewrite <- (firstn_skipn (hi - lo) (skipn lo s)) at 1.
  rewrite skipn_skipn. replace (hi - lo + lo) with hi by lia. reflexivity.
Qed.

Lemma firstn_add' {A} n m (l : list A) : firstn (n + m) l = firstn n l ++ firstn m (skipn n l).
Proof.
  revert l; induction n as [|n IH]; intros [|x l]; simpl; try reflexivity.
  - rewrite firstn_nil. reflexivity.
  - rewrite IH. reflexivity.
Qed.

Lemma slice_app lo mid hi (s : bytes) : lo <= mid -> mid <= hi -> slice lo hi s = slice lo mid s ++ slice mid hi s.
Proof.
  intros H1 H2. unfold slice.
  replace (hi - lo) with ((mid - lo) + (hi - mid)) by lia.
  rewrite firstn_add', skipn_skipn. do 3 f_equal. lia.
Qed.

Lemma skipn_cons_nth (s : bytes) i c rest : skipn i s = c :: rest -> skipn (S i) s = rest /\ nth i s "0"%char = c.
Proof.
  revert s; induction i as [|i IH]; intros [|x s]; simpl; try discriminate.
  - intros [= -> ->]. split; reflexivity.
  - apply IH.
Qed.

Lemma slice_one (s : bytes) i c rest : skipn i s = c :: rest -> slice i (S i) s = [c].
Proof. unfold slice. intros ->. replace (S i - i) with 1 by lia. reflexivity. Qed.

Lemma slice_name (s : bytes) i k c rest : skipn i s = c :: rest -> slice i (S i + k) s = c :: firstn k rest.
Proof. unfold slice. intros ->. replace (S i + k - i) with (S k) by lia. reflexivity. Qed.

Lemma wild_name_len_spec s k : wild_name_len s = Some k ->
  k <= length s /\ count_wild (firstn k s) = 0 /\ ~ In "/"%char (firstn k s) /\
  (skipn k s = [] \/ exists t, skipn k s = "/"%char :: t).
Proof.
  revert k; induction s as [|c s IH]; intros k; simpl.
  - intros [= <-]. simpl. intuition.
  - destruct (Ascii.eqb c "/") eqn:E1.
    + intros [= <-]. apply Ascii.eqb_eq in E1. subst. simpl. split; [lia|]. split; [reflexivity|].
      split; [tauto|]. right. eexists. reflexivity.
    + destruct (is_wild c) eqn:E2; [discriminate|].
      destruct (wild_name_len s) as [k'|]; [|discriminate]. intros [= <-].
      destruct (IH k' eq_refl) as (H1 & H2 & H3 & H4). simpl. rewrite E2.
      split; [lia|]. split; [exact H2|]. split; [|exact H4].
      intros [->|Hi]; [rewrite Ascii.eqb_refl in E1; discriminate|tauto].
Qed.

(** ** Routes *)

Lemma pfx_pfx a b rs : map (pfx a) (map (pfx b) rs) = map (pfx (a ++ b)) rs.
Proof. rewrite map_map. apply map_ext. intros [r h]. unfold pfx. simpl. rewrite app_assoc. reflexivity. Qed.

Lemma pfx_nil rs : map (pfx []) rs = rs.
Proof. rewrite <- map_id. apply map_ext. intros [r h]. reflexivity. Qed.

Lemma starts_pfx b t rs : starts b (map (pfx (b :: t)) rs).
Proof. unfold starts. rewrite Forall_map. apply Forall_forall. intros [r h] _. exists (t ++ r). reflexivity. Qed.

Lemma starts_perm b rs rs' : Permutation rs rs' -> starts b rs -> starts b rs'.
Proof. intros P H. unfold starts in *. eapply Permutation_Forall; eassumption. Qed.

Lemma starts_cons b t h rs : starts b rs -> starts b ((b :: t, h) :: rs).
Proof. intros H. constructor; [exists t; reflexivity|exact H]. Qed.

(** ** Inserting into a fresh node *)

Lemma insert_loop_zero pth h n offset i rest :
  insert_loop pth h n 0 offset i rest =
  Some (mkNode (skipn offset pth) (wildChild n) (nType n) (indices n) (children n) (Some h)).
Proof. destruct rest; reflexivity. Qed.

Lemma insert_loop_ok pth h : forall rest np offset i r,
  rest = skipn i pth ->
  np = count_wild (skipn offset pth) ->
  count_wild (slice offset i pth) = 0 ->
  count_wild (slice i offset pth) = 0 ->
  offset <= length pth ->
  insert_loop pth h new_node np offset i rest = Some r ->
  wf r /\ nType r = static /\ routes r = [(skipn offset pth, h)].
Proof.
  induction rest as [|c rest' IH]; intros np offset i r Hr Hnp H1 H2 Hoff.
  - destruct np; simpl; [|discriminate]. intros [= <-]. simpl. unfold pfx. simpl. rewrite app_nil_r.
    split; [|split; reflexivity]. split; [symmetry; exact Hnp|]. split; [constructor|exact I].
  - destruct np as [|np'].
    { simpl. intros [= <-]. simpl. unfold pfx. simpl. rewrite app_nil_r.
      split; [|split; reflexivity]. split; [symmetry; exact Hnp|]. split; [constructor|exact I]. }
    destruct (skipn_cons_nth pth i c rest' (eq_sym Hr)) as [Hr' _].
    cbn [insert_loop]. destruct (is_wild c) eqn:Ec; cbn [negb].
    2: { apply IH; auto.
         - destruct (Nat.le_gt_cases offset i).
           + rewrite (slice_app offset i (S i)), count_wild_app, H1, (slice_one pth i c rest') by (auto; lia).
             simpl. rewrite Ec. reflexivity.
           + rewrite slice_empty by lia. reflexivity.
         - destruct (Nat.le_gt_cases offset i).
           + rewrite slice_empty by lia. reflexivity.
           + rewrite (slice_app i (S i) offset), count_wild_app, (slice_one pth i c rest') in H2 by (auto; lia).
             simpl in H2. rewrite Ec in H2. exact H2. }
    destruct (wild_name_len rest') as [k|] eqn:Ek; [|discriminate].
    destruct (wild_name_len_spec _ _ Ek) as (Hk & Hkw & Hks & Hkr).
    (* the wildcard starts at or after offset *)
    assert (Hoi : offset <= i).
    { destruct (Nat.le_gt_cases offset i) as [|Hlt]; [assumption|].
      rewrite (slice_app i (S i) offset), count_wild_app, (slice_one pth i c rest') in H2 by (auto; lia).
      simpl in H2. rewrite Ec in H2. discriminate. }
    assert (Hsplit : skipn offset pth = slice offset i pth ++ c :: rest')
      by (rewrite (skipn_slice offset i) by exact Hoi; rewrite Hr; reflexivity).
    assert (Hnp' : np' = count_wild (skipn k rest')).
    { rewrite Hsplit, count_wild_app, H1 in Hnp. simpl in Hnp. rewrite Ec in Hnp.
      rewrite (count_wild_split k rest'), Hkw in Hnp. simpl in Hnp. lia. }
    assert (Hlen : length pth = S i + length rest').
    { assert (E := f_equal (@length _) Hr). rewrite length_skipn in E. simpl in E.
      assert (i < length pth); [|lia].
      destruct (Nat.le_gt_cases (length pth) i) as [Hle|]; [|assumption].
      rewrite skipn_all2 in Hr by exact Hle. discriminate. }
    assert (Hend : skipn (S i + k) pth = skipn k rest')
      by (rewrite <- Hr', skipn_skipn; f_equal; lia).
    cbn [children new_node]. destruct (Nat.eqb k 0) eqn:Ek0; [discriminate|].
    apply Nat.eqb_neq in Ek0.
    destruct (Ascii.eqb c ":") eqn:Ecolon.
    + (* a parameter *)
      apply Ascii.eqb_eq in Ecolon. subst c.
      replace (Nat.ltb i offset) with false by (symmetry; apply Nat.ltb_ge; exact Hoi).
      replace (if Nat.ltb 0 i then slice offset i pth else path new_node) with (slice offset i pth)
        by (destruct i; [rewrite slice_empty by lia; reflexivity|reflexivity]).
      replace (if Nat.ltb 0 i then i else offset) with i by (destruct i; simpl; lia).
      destruct (Nat.ltb (S i + k) (length pth)) eqn:Elt.
      * apply Nat.ltb_lt in Elt.
        destruct (insert_loop pth h new_node np' (S i + k) (S i) rest') as [g|] eqn:Eg; [|discriminate].
        intros [= <-].
        destruct (IH np' (S i + k) (S i) g (eq_sym Hr') ltac:(rewrite Hend; exact Hnp')
                    ltac:(rewrite slice_empty by lia; reflexivity)
                    ltac:(unfold slice; rewrite Hr'; replace (S i + k - S i) with k by lia; exact Hkw)
                    ltac:(lia) Eg) as (Hg & Hgt & Hgr).
        destruct Hkr as [Hkr|[t Ht]].
        { exfalso. assert (E := f_equal (@length _) Hkr). rewrite length_skipn in E. simpl in E. lia. }
        split; [|split; [reflexivity|]].
        -- simpl. split; [exact H1|]. split; [reflexivity|]. split; [reflexivity|].
           split; [reflexivity|]. split.
           ++ exists (firstn k rest'). replace (S (i + k)) with (S i + k) by lia. rewrite (slice_name pth i k ":"%char rest') by (symmetry; exact Hr).
              auto.
           ++ split; [exact Hgt|]. split; [exact Hg|]. rewrite Hgr, Hend, Ht. apply starts_cons. constructor.
        -- cbn [routes flat_map map app]. rewrite Hgr. unfold pfx. cbn [fst snd map app].
           rewrite ?app_nil_r.
           rewrite (skipn_slice offset i pth Hoi), (skipn_slice i (S i + k) pth) by lia.
           reflexivity.
      * apply Nat.ltb_ge in Elt.
        assert (Hk0 : skipn k rest' = []) by (apply skipn_all2; lia).
        rewrite Hk0 in Hnp'. simpl in Hnp'. subst np'.
        rewrite insert_loop_zero. intros [= <-].
        assert (Hfk : firstn k rest' = rest') by (apply firstn_all2; lia).
        split; [|split; [reflexivity|]].
        -- simpl. split; [exact H1|]. split; [reflexivity|]. split; [reflexivity|].
           split; [reflexivity|]. split; [|reflexivity].
           exists rest'.
           rewrite <- Hr. rewrite Hfk in Hkw, Hks. auto.
        -- cbn [routes flat_map map app]. unfold pfx. cbn [fst snd map app].
           rewrite ?app_nil_r. rewrite (skipn_slice offset i pth Hoi). reflexivity.
    + (* a catch-all *)
      assert (Hstar : c = "*"%char).
      { unfold is_wild in Ec. rewrite Ecolon in Ec. apply Ascii.eqb_eq. exact Ec. }
      subst c.
      destruct (negb (Nat.eqb (S i + k) (length pth)) || Nat.ltb 1 (S np')) eqn:Ec1; [discriminate|].
      apply orb_false_iff in Ec1. destruct Ec1 as [Ee Enp].
      apply negb_false_iff, Nat.eqb_eq in Ee. apply Nat.ltb_ge in Enp.
      cbn [ends_in_slash path new_node rev].
      destruct i as [|i']; [discriminate|].
      destruct (Ascii.eqb (nth i' pth "0"%char) "/") eqn:Es; cbn [negb]; [|discriminate].
      apply Ascii.eqb_eq in Es.
      destruct (Nat.ltb i' offset) eqn:Eo; [discriminate|]. apply Nat.ltb_ge in Eo.
      intros [= <-].
      assert (Hsk : skipn i' pth = "/"%char :: "*"%char :: rest').
      { rewrite <- Es, Hr. clear -Hlen. revert pth Hlen. induction i' as [|j IHj]; intros [|x s] Hl;
        simpl in *; try lia; [reflexivity|]. apply IHj. lia. }
      split; [|split; [reflexivity|]].
      * simpl. split.
        { rewrite (slice_app offset i' (S i')), count_wild_app in H1 by lia. lia. }
        split; [repeat constructor; simpl; tauto|].
        split; [reflexivity|]. split.
        { unfold starts. simpl. rewrite Hsk. constructor; [eexists; reflexivity|constructor]. }
        split; [right; split; reflexivity|]. split; [|exact I].
        split; [reflexivity|]. split; [reflexivity|]. split; [reflexivity|]. split; [reflexivity|].
        exists rest', h. rewrite Hsk. reflexivity.
      * cbn [routes flat_map map app]. unfold pfx. cbn [fst snd map app].
        rewrite ?app_nil_r. rewrite (skipn_slice offset i' pth Eo). reflexivity.
Qed.

Lemma insert_loop_frame pth h n np rest : children n = [] ->
  insert_loop pth h n (S np) 0 0 (":"%char :: rest) =
  option_map (fun r => mkNode (path n) (wildChild r) (nType n) (indices n) (children r) (handle n))
    (insert_loop pth h new_node (S np) 0 0 (":"%char :: rest)).
Proof.
  destruct n as [p wc nt idx ch hd]. simpl. intros ->.
  destruct (wild_name_len rest) as [k|]; [|reflexivity].
  destruct (Nat.eqb k 0); [reflexivity|].
  destruct (Nat.ltb (S k) (length pth)).
  - destruct (insert_loop pth h new_node np (S k) 1 rest); reflexivity.
  - destruct (insert_loop pth h (mkNode [] false param [] [] None) np 0 1 rest); reflexivity.
Qed.

Lemma insert_loop_colon_shape pth h np rest r :
  insert_loop pth h new_node (S np) 0 0 (":"%char :: rest) = Some r ->
  path r = [] /\ wildChild r = true /\ handle r = None /\ indices r = [].
Proof.
  simpl. destruct (wild_name_len rest) as [k|]; [|discriminate].
  destruct (Nat.eqb k 0); [discriminate|].
  destruct (Nat.ltb (S k) (length pth)).
  - destruct (insert_loop pth h new_node np (S k) 1 rest); [|discriminate].
    intros [= <-]. simpl. auto.
  - destruct (insert_loop pth h (mkNode [] false param [] [] None) np 0 1 rest); [|discriminate].
    intros [= <-]. simpl. auto.
Qed.

Lemma insert_loop_star_none pth h n np rest :
  insert_loop pth h n (S np) 0 0 ("*"%char :: rest) = None.
Proof.
  simpl. destruct (wild_name_len rest) as [k|]; [|reflexivity].
  destruct (children n); [|reflexivity]. destruct (Nat.eqb k 0); [reflexivity|].
  destruct (_ || _); [reflexivity|]. destruct (ends_in_slash (path n)); reflexivity.
Qed.

Lemma insert_loop_wild_kids pth h n np c rest :
  is_wild c = true -> children n <> [] -> insert_loop pth h n (S np) 0 0 (c :: rest) = None.
Proof.
  intros Hc Hn. cbn [insert_loop]. rewrite Hc. cbn [negb].
  destruct (wild_name_len rest); [|reflexivity]. destruct (children n); [congruence|reflexivity].
Qed.

Lemma wf_static_change p wc nt idx ch hd p' nt' hd' :
  wf (mkNode p wc nt idx ch hd) -> (nt = static \/ nt = root) -> (nt' = static \/ nt' = root) ->
  count_wild p' = 0 -> wf (mkNode p' wc nt' idx ch hd').
Proof.
  intros Hw Hnt Hnt' Hp'.
  destruct Hnt as [->| ->]; destruct Hnt' as [->| ->]; simpl in *; destruct Hw as [_ Hw]; auto.
Qed.

Lemma kids_ok_snoc P is cs b c : kids_ok P is cs ->
  is_wild b = false /\ starts b (routes c) /\ (nType c = static \/ (b = "/"%char /\ nType c = catchAll)) /\ P c ->
  kids_ok P (is ++ [b]) (cs ++ [c]).
Proof.
  revert is; induction cs as [|c1 cs IH]; intros [|b1 is]; simpl; try tauto.
  intros (H1 & H2 & H3 & H4 & H5) Hc. repeat split; auto.
Qed.

Lemma NoDup_snoc (is : bytes) b : NoDup is -> ~ In b is -> NoDup (is ++ [b]).
Proof.
  intros H Hb. apply NoDup_app; [exact H|repeat constructor; simpl; tauto|].
  intros x Hx [<-|[]]. contradiction.
Qed.

Lemma count_wild_firstn_le (s : bytes) k : count_wild (firstn k s) <= count_wild s.
Proof. pose proof (count_wild_split k s). lia. Qed.

Lemma count_wild_skipn_le (s : bytes) k : count_wild (skipn k s) <= count_wild s.
Proof. pose proof (count_wild_split k s). lia. Qed.

Lemma walk_cae pth np h n : wf n -> nType n = catchAll -> pth <> [] -> walk n pth np h = None.
Proof.
  destruct n as [p wc nt idx ch hd]. simpl. intros Hw ->.
  destruct Hw as (-> & -> & -> & -> & name & h0 & ->).
  destruct pth as [|c t]; [congruence|]. intros _. simpl.
  unfold wild_ok. cbn [is_catchAll nType negb]. rewrite andb_false_r. reflexivity.
Qed.

Lemma descend_none f c idx ch : descend f c idx ch = None -> ~ In c idx.
Proof.
  revert idx; induction ch as [|c1 cs IH]; intros [|b is]; simpl; try tauto.
  - destruct (Ascii.eqb c b || existsb (Ascii.eqb c) is) eqn:E; [discriminate|].
    intros _ Hin. apply orb_false_iff in E. destruct E as [E1 E2].
    destruct Hin as [<-|Hin]; [rewrite Ascii.eqb_refl in E1; discriminate|].
    assert (existsb (Ascii.eqb c) is = true) by (apply existsb_exists; exists c; split; [exact Hin|apply Ascii.eqb_refl]).
    congruence.
  - destruct (Ascii.eqb b c) eqn:E; [discriminate|].
    destruct (descend f c is cs) as [[|]|] eqn:Ed; try discriminate.
    intros _ [->|Hin]; [rewrite Ascii.eqb_refl in E; discriminate|]. exact (IH is Ed Hin).
Qed.

Lemma descend_ok pth' c t np h idx ch ch' :
  pth' = c :: t -> NoDup idx -> kids_ok wf idx ch ->
  (forall c1 c1', In c1 ch -> wf c1 -> nType c1 = static -> walk c1 pth' np h = Some c1' ->
     wf c1' /\ nType c1' = static /\ Permutation (routes c1') ((pth', h) :: routes c1)) ->
  descend (fun c1 => walk c1 pth' np h) c idx ch = Some (Some ch') ->
  kids_ok wf idx ch' /\ Permutation (flat_map routes ch') ((pth', h) :: flat_map routes ch).
Proof.
  intros Hq. revert idx ch'; induction ch as [|c1 cs IH]; intros [|b is] ch'; simpl;
    intros Hnd Hk Hall; try contradiction; try discriminate.
  - destruct Hk as (Hb & Hs & Hty & Hw1 & Hk).
    inversion Hnd as [|? ? Hni Hnd']; subst.
    destruct (Ascii.eqb b c) eqn:E.
    + apply Ascii.eqb_eq in E. subst b.
      destruct (walk c1 (c :: t) np h) as [c1'|] eqn:Ew; [|discriminate]. intros [= <-].
      destruct Hty as [Hty|[-> Hty]].
      * destruct (Hall c1 c1' (or_introl eq_refl) Hw1 Hty Ew) as (Hw' & Hty' & Hp).
        split.
        -- simpl. split; [exact Hb|]. split; [eapply starts_perm; [symmetry; exact Hp|apply starts_cons; exact Hs]|].
           split; [left; exact Hty'|]. split; [exact Hw'|exact Hk].
        -- simpl. apply (Permutation_app_tail _ Hp).
      * rewrite walk_cae in Ew by (auto; discriminate). discriminate.
    + destruct (descend (fun c2 => walk c2 (c :: t) np h) c is cs) as [[cs''|]|] eqn:Ed; try discriminate.
      intros [= <-].
      destruct (IH is cs'' Hnd' Hk (fun c2 c2' Hin => Hall c2 c2' (or_intror Hin)) Ed) as [Hk' Hp].
      split.
      * simpl. auto.
      * simpl. eapply Permutation_trans; [apply Permutation_app_head; exact Hp|].
        simpl. symmetry. apply Permutation_middle.
Qed.

Lemma skipn_nth (s : bytes) l d : l < length s -> skipn l s = nth l s d :: skipn (S l) s.
Proof. revert s; induction l as [|l IH]; intros [|x s]; simpl; intros; try lia; auto. apply IH. lia. Qed.

Lemma wild_ok_split n pth : wild_ok n pth = true ->
  exists t, pth = path n ++ t /\ (t = [] \/ exists t', t = "/"%char :: t').
Proof.
  unfold wild_ok. intros H. apply andb_true_iff in H as [H H4]. apply andb_true_iff in H as [H _].
  apply andb_true_iff in H as [H1 H2]. apply Nat.leb_le in H1. apply bytes_eqb_true in H2.
  exists (skipn (length (path n)) pth). split.
  - rewrite H2 at 1. symmetry. apply firstn_skipn.
  - apply orb_true_iff in H4 as [H4|H4].
    + left. apply skipn_all2. apply Nat.leb_le in H4. exact H4.
    + right. apply Ascii.eqb_eq in H4.
      destruct (Nat.le_gt_cases (length pth) (length (path n))) as [Hle|Hlt].
      * rewrite nth_overflow in H4 by exact Hle. discriminate.
      * rewrite (skipn_nth _ _ "0"%char Hlt), H4. eexists. reflexivity.
Qed.

Lemma skipn_length_app (p t : bytes) : skipn (length p) (p ++ t) = t.
Proof. induction p; simpl; auto. Qed.

Lemma firstn_length_app (p t : bytes) : firstn (length p) (p ++ t) = p.
Proof. induction p; simpl; congruence. Qed.

Lemma perm_pfx p (O L M : list (bytes * Handle)) x :
  Permutation L (x :: M) -> Permutation (map (pfx p) (O ++ L)) (pfx p x :: map (pfx p) (O ++ M)).
Proof.
  intros H. change (pfx p x :: map (pfx p) (O ++ M)) with (map (pfx p) (x :: O ++ M)).
  apply Permutation_map. eapply Permutation_trans; [apply Permutation_app_head; exact H|].
  symmetry. apply Permutation_middle.
Qed.

Lemma wf_static_intro (q : bytes) (wc : bool) (nt : nodeType) (is : bytes) (cs : list node) (hd : option Handle) :
  (nt = static \/ nt = root) -> count_wild q = 0 ->
  (if wc then is = [] /\ match cs with [c] => nType c = param /\ wf c | _ => False end
   else NoDup is /\ kids_ok wf is cs) ->
  wf (mkNode q wc nt is cs hd).
Proof. intros [->| ->] Hq H; simpl; auto. Qed.

Lemma walk_ok : forall n, wf n -> walk_spec n.
Proof.
  induction n as [n IH] using node_strong.
  destruct n as [p wc nt idx ch hd]. intros Hw pth np h n' Hwalk.
  split.
  - intros Hnt Hnp. cbn [nType] in Hnt |- *.
    assert (Hw' : count_wild p = 0 /\
                  (if wc then idx = [] /\ match ch with [c] => nType c = param /\ wf c | _ => False end
                   else NoDup idx /\ kids_ok wf idx ch))
      by (destruct Hnt as [->| ->]; exact Hw).
    assert (Hpar : is_param nt = false) by (destruct Hnt as [->| ->]; reflexivity).
    clear Hw. destruct Hw' as [Hp Hw].
    cbn [walk] in Hwalk. rewrite Hpar in Hwalk. cbn [andb] in Hwalk.
    pose proof (lcp_le pth p) as [Hl1 Hl2]. pose proof (lcp_firstn pth p) as Hfe.
    pose proof (lcp_nth pth p "0"%char) as Hne.
    remember (lcp pth p) as i eqn:Ei.
    assert (Hcf : count_wild (firstn i pth) = 0)
      by (rewrite Hfe; pose proof (count_wild_firstn_le p i); lia).
    assert (Hcnt : np = count_wild (skipn i pth)) by (rewrite Hnp, (count_wild_split i pth), Hcf; reflexivity).
    destruct (Nat.ltb i (length p)) eqn:Hip.
    + (* the edge is split at i *)
      apply Nat.ltb_lt in Hip.
      assert (Hskp : skipn i p = nth i p "0"%char :: skipn (S i) p) by (apply skipn_nth; exact Hip).
      assert (Hpi : is_wild (nth i p "0"%char) = false) by (apply nth_In_wild; assumption).
      assert (Hcsk : count_wild (skipn i p) = 0) by (pose proof (count_wild_skipn_le p i); lia).
      assert (Hcs : wf (mkNode (skipn i p) wc static idx ch hd))
        by (apply wf_static_intro; [left; reflexivity| |exact Hw];
            pose proof (count_wild_skipn_le p i); lia).
      assert (Hscs : starts (nth i p "0"%char) (routes (mkNode (skipn i p) wc static idx ch hd)))
        by (cbn [routes]; rewrite Hskp; apply starts_pfx).
      assert (Hrcs : map (pfx (firstn i pth)) (routes (mkNode (skipn i p) wc static idx ch hd)) =
                     routes (mkNode p wc nt idx ch hd))
        by (cbn [routes]; rewrite pfx_pfx, Hfe, firstn_skipn; reflexivity).
      unfold split_edge in Hwalk. cbn [path wildChild nType indices children handle] in Hwalk.
      destruct (Nat.ltb i (length pth)) eqn:Hipth.
      * apply Nat.ltb_lt in Hipth.
        destruct (skipn i pth) as [|c t] eqn:Esk; [discriminate|].
        destruct (skipn_cons_nth pth i c t Esk) as [_ Hci].
        assert (Hcne : c <> nth i p "0"%char) by (rewrite <- Hci; apply Hne; assumption).
        unfold grow in Hwalk. destruct (is_wild c) eqn:Ec; cbn [negb] in Hwalk.
        -- destruct np as [|np']; [simpl in Hcnt; rewrite Ec in Hcnt; discriminate|].
           unfold insertChild in Hwalk. rewrite insert_loop_wild_kids in Hwalk by (auto; discriminate).
           discriminate.
        -- destruct (insertChild new_node np (c :: t) h) as [child|] eqn:Ech; [|discriminate].
           injection Hwalk as <-.
           destruct (insert_loop_ok (c :: t) h (c :: t) np 0 0 child eq_refl Hcnt eq_refl eq_refl
                       (Nat.le_0_l _) Ech) as (Hwc & Htc & Hrc).
           cbn [path wildChild nType indices children handle app].
           split; [|split; [reflexivity|]].
           ++ apply wf_static_intro; [exact Hnt|exact Hcf|]. split.
              ** constructor; [simpl; intros [E|[]]; congruence|constructor; [simpl; tauto|constructor]].
              ** simpl kids_ok. repeat split; auto.
                 rewrite Hrc. apply starts_cons. constructor.
           ++ cbn [routes flat_map]. rewrite (app_nil_r (routes child)), Hrc. cbn [app].
              rewrite map_app, pfx_pfx, Hfe, firstn_skipn. cbn [map]. unfold pfx at 2. simpl fst. simpl snd.
              rewrite <- Hfe, <- Esk, firstn_skipn. apply Permutation_sym, Permutation_cons_append.
      * apply Nat.ltb_ge in Hipth. assert (Hi : i = length pth) by lia.
        injection Hwalk as <-. split; [|split; [reflexivity|]].
        -- apply wf_static_intro; [exact Hnt|exact Hcf|]. split.
           ++ repeat constructor. simpl. tauto.
           ++ simpl kids_ok. repeat split; auto.
        -- cbn [routes flat_map app]. rewrite app_nil_r. cbn [map].
           rewrite pfx_pfx, Hfe, firstn_skipn. unfold pfx at 1. simpl fst. simpl snd.
           rewrite app_nil_r, <- Hfe, firstn_all2 by lia. reflexivity.
    + (* the whole of p is a prefix of pth *)
      apply Nat.ltb_ge in Hip. assert (Hi : i = length p) by lia. clear Hip.
      assert (Hpth : pth = p ++ skipn i pth)
        by (rewrite <- (firstn_skipn i pth) at 1; rewrite Hfe, Hi, firstn_all; reflexivity).
      destruct (skipn i pth) as [|c t] eqn:Esk.
      * destruct hd as [h0|]; [discriminate|]. injection Hwalk as <-.
        split; [apply wf_static_intro; assumption|]. split; [reflexivity|].
        rewrite app_nil_r in Hpth. subst pth.
        cbn [routes app flat_map]. simpl map at 1. unfold pfx at 1. simpl fst. simpl snd.
        rewrite app_nil_r. reflexivity.
      * destruct wc.
        -- destruct Hw as [-> Hch]. destruct ch as [|c0 [|c0' cs]]; try contradiction.
           destruct Hch as [Hty0 Hw0].
           destruct (wild_ok c0 (c :: t)) eqn:Ewo; [|discriminate].
           destruct (walk c0 (c :: t) (dec8 np) h) as [c0'|] eqn:Ew0; [|discriminate].
           injection Hwalk as <-.
           assert (Hc : c = ":"%char).
           { destruct (wild_ok_split _ _ Ewo) as (t0 & E0 & _).
             destruct c0 as [cp cwc cnt cidx cch chd]. simpl in Hty0. subst cnt.
             simpl in Hw0. destruct Hw0 as (_ & (name & -> & _) & _). simpl in E0. congruence. }
           assert (Hnp' : S (dec8 np) = count_wild (c :: t))
             by (subst c; rewrite Hcnt; reflexivity).
           destruct (IH c0 (height_child c0 p true nt [] [c0] hd (or_introl eq_refl)) Hw0 (c :: t) (dec8 np) h c0' Ew0)
             as [_ Hpar0].
           destruct (Hpar0 Hty0 Ewo Hnp') as (Hw0' & Hty0' & Hperm0).
           split; [apply wf_static_intro; [exact Hnt|exact Hp|]; auto|]. split; [reflexivity|].
           cbn [routes flat_map]. rewrite Hpth at 1. change (p ++ c :: t, h) with (pfx p (c :: t, h)).
           apply perm_pfx. rewrite !app_nil_r. exact Hperm0.
        -- destruct Hw as [Hnd Hk].
           destruct (descend (fun c1 => walk c1 (c :: t) np h) c idx ch) as [[ch'|]|] eqn:Ed; [|discriminate|].
           ++ injection Hwalk as <-.
              assert (Hall : forall c1 c1', In c1 ch -> wf c1 -> nType c1 = static ->
                        walk c1 (c :: t) np h = Some c1' ->
                        wf c1' /\ nType c1' = static /\ Permutation (routes c1') ((c :: t, h) :: routes c1)).
              { intros c1 c1' Hin Hw1 Hty1 Ew1.
                destruct (IH c1 (height_child c1 _ _ _ _ _ _ Hin) Hw1 (c :: t) np h c1' Ew1) as [Hst _].
                rewrite <- Hty1. apply Hst; [left; exact Hty1|exact Hcnt]. }
              destruct (descend_ok (c :: t) c t np h idx ch ch' eq_refl Hnd Hk Hall Ed) as [Hk' Hperm].
              split; [apply wf_static_intro; [exact Hnt|exact Hp|]; auto|]. split; [reflexivity|].
              cbn [routes]. rewrite Hpth at 1. change (p ++ c :: t, h) with (pfx p (c :: t, h)).
              apply perm_pfx. exact Hperm.
           ++ pose proof (descend_none _ _ _ _ Ed) as Hni.
              unfold grow in Hwalk. destruct (is_wild c) eqn:Ec; cbn [negb] in Hwalk.
              ** destruct np as [|np']; [simpl in Hcnt; rewrite Ec in Hcnt; discriminate|].
                 unfold insertChild in Hwalk.
                 destruct ch as [|c1 cs]; [|rewrite insert_loop_wild_kids in Hwalk by (auto; discriminate); discriminate].
                 destruct idx as [|b is]; [|contradiction].
                 unfold is_wild in Ec. destruct (Ascii.eqb c ":") eqn:Ecol.
                 --- apply Ascii.eqb_eq in Ecol. subst c.
                     rewrite insert_loop_frame in Hwalk by reflexivity.
                     destruct (insert_loop (":"%char :: t) h new_node (S np') 0 0 (":"%char :: t)) as [r0|] eqn:Er0;
                       [|discriminate].
                     cbn [option_map path nType indices handle] in Hwalk. injection Hwalk as <-.
                     destruct (insert_loop_ok (":"%char :: t) h (":"%char :: t) (S np') 0 0 r0 eq_refl Hcnt
                                 eq_refl eq_refl (Nat.le_0_l _) Er0) as (Hwr & Htr & Hrr).
                     destruct (insert_loop_colon_shape _ _ _ _ _ Er0) as (Hr1 & Hr2 & Hr3 & Hr4).
                     destruct r0 as [rp rwc rnt ridx rch rhd]. simpl in Hr1, Hr2, Hr3, Hr4, Htr. subst rp rwc rhd ridx rnt.
                     simpl in Hwr. destruct Hwr as (_ & _ & Hrch).
                     split; [apply wf_static_intro; [exact Hnt|exact Hp|]; split; [reflexivity|exact Hrch]|]. split; [reflexivity|].
                     cbn [routes] in Hrr |- *. rewrite pfx_nil in Hrr. simpl app in Hrr.
                     rewrite Hpth at 1. change (p ++ ":"%char :: t, h) with (pfx p (":"%char :: t, h)).
                     apply perm_pfx. cbn [children flat_map]. rewrite Hrr. reflexivity.
                 --- cbn [orb] in Ec. apply Ascii.eqb_eq in Ec. subst c.
                     rewrite insert_loop_star_none in Hwalk. discriminate.
              ** destruct (insertChild new_node np (c :: t) h) as [child|] eqn:Ech; [|discriminate].
                 injection Hwalk as <-.
                 destruct (insert_loop_ok (c :: t) h (c :: t) np 0 0 child eq_refl Hcnt eq_refl eq_refl
                             (Nat.le_0_l _) Ech) as (Hwc & Htc & Hrc).
                 cbn [path wildChild nType indices children handle].
                 split; [|split; [reflexivity|]].
                 --- apply wf_static_intro; [exact Hnt|exact Hp|]. split.
                     +++ apply NoDup_snoc; assumption.
                     +++ apply kids_ok_snoc; [exact Hk|]. repeat split; auto.
                         rewrite Hrc. apply starts_cons. constructor.
                 --- cbn [routes]. rewrite Hpth at 1. change (p ++ c :: t, h) with (pfx p (c :: t, h)).
                     apply perm_pfx. rewrite flat_map_app. simpl flat_map. rewrite app_nil_r, Hrc.
                     symmetry. apply Permutation_cons_append.
  - intros Hnt Hwo Hnp. cbn [nType] in Hnt. subst nt.
    cbn [wf] in Hw. destruct Hw as (-> & (name & -> & Hnw & Hns) & Hch).
    destruct (wild_ok_split _ _ Hwo) as (t & Hpt & Ht). cbn [path] in Hpt. subst pth.
    rewrite count_wild_app in Hnp. cbn [count_wild is_wild Ascii.eqb orb] in Hnp.
    assert (Hcnt : np = count_wild t) by (simpl in Hnp; lia).
    cbn [walk] in Hwalk. rewrite lcp_app, Nat.ltb_irrefl, skipn_length_app in Hwalk.
    destruct Ht as [-> | (t' & ->)].
    + destruct hd as [h0|]; [discriminate|]. injection Hwalk as <-.
      split; [cbn [wf]; split; [reflexivity|split; [exists name; auto|exact Hch]]|]. split; [reflexivity|].
      cbn [routes app map]. unfold pfx at 1. cbn [fst snd]. reflexivity.
    + destruct ch as [|d [|d' cs]]; [| |contradiction].
      * subst idx. unfold grow in Hwalk. cbn -[insertChild] in Hwalk.
        destruct (insertChild new_node np ("/"%char :: t') h) as [child|] eqn:Ech; [|discriminate].
        injection Hwalk as <-.
        destruct (insert_loop_ok ("/"%char :: t') h ("/"%char :: t') np 0 0 child eq_refl Hcnt eq_refl eq_refl
                    (Nat.le_0_l _) Ech) as (Hwc & Htc & Hrc).
        split; [|split; [reflexivity|]].
        -- cbn [wf]. split; [reflexivity|]. split; [exists name; auto|]. repeat split; auto.
           rewrite Hrc. apply starts_cons. constructor.
        -- cbn [routes flat_map]. rewrite app_nil_r, Hrc.
           change ((":"%char :: name) ++ "/"%char :: t', h) with (pfx (":"%char :: name) ("/"%char :: t', h)).
           apply perm_pfx. simpl skipn. reflexivity.
      * destruct Hch as (Htd & Hwd & Hsd).
        cbn -[walk] in Hwalk.
        destruct (walk d ("/"%char :: t') np h) as [d'|] eqn:Ewd; [|discriminate].
        injection Hwalk as <-.
        destruct (IH d (height_child d _ _ _ _ [d] _ (or_introl eq_refl)) Hwd ("/"%char :: t') np h d' Ewd)
          as [Hst _].
        destruct (Hst (or_introl Htd) Hcnt) as (Hwd' & Htd' & Hpd).
        split; [|split; [reflexivity|]].
        -- cbn [wf]. split; [reflexivity|]. split; [exists name; auto|]. rewrite Htd'. repeat split; auto.
           unfold starts in *. apply (Permutation_Forall (Permutation_sym Hpd)).
           constructor; [exists t'; reflexivity|exact Hsd].
        -- cbn [routes flat_map]. rewrite !app_nil_r.
           change ((":"%char :: name) ++ "/"%char :: t', h) with (pfx (":"%char :: name) ("/"%char :: t', h)).
           apply perm_pfx. exact Hpd.
Qed.

Lemma kids_in_idx P is cs r h0 :
  kids_ok P is cs -> In (r, h0) (flat_map routes cs) -> exists b t, r = b :: t /\ In b is.
Proof.
  revert is; induction cs as [|c1 cs IH]; intros [|b is]; simpl; try tauto.
  intros (Hb & Hs & _ & _ & Hk) Hin. apply in_app_or in Hin as [Hin|Hin].
  - unfold starts in Hs. rewrite Forall_forall in Hs. destruct (Hs _ Hin) as [t Ht].
    simpl in Ht. exists b, t. auto.
  - destruct (IH is Hk Hin) as (b' & t & -> & Hb'). exists b', t. auto.
Qed.

Lemma starts_no_nil b rs h0 : starts b rs -> ~ In ([], h0) rs.
Proof.
  unfold starts. rewrite Forall_forall. intros H Hin. destruct (H _ Hin) as [t Ht]. discriminate.
Qed.

Lemma starts_head b rs c t h0 : starts b rs -> In (c :: t, h0) rs -> c = b.
Proof.
  unfold starts. rewrite Forall_forall. intros H Hin. destruct (H _ Hin) as [t' Ht]. simpl in Ht. congruence.
Qed.

Lemma param_starts n : wf n -> nType n = param -> starts ":"%char (routes n).
Proof.
  destruct n as [p wc nt idx ch hd]. simpl. intros Hw ->. destruct Hw as (_ & (name & -> & _) & _).
  apply starts_pfx.
Qed.

Lemma wild_ok_routes c0 r h0 : wf c0 -> nType c0 = param -> In (r, h0) (routes c0) -> wild_ok c0 r = true.
Proof.
  destruct c0 as [p wc nt idx ch hd]. simpl nType. intros Hw ->. cbn [wf] in Hw.
  destruct Hw as (_ & (name & -> & _) & Hch). cbn [routes]. intros Hin.
  apply in_map_iff in Hin as ([r' h1] & Hpf & Hin). unfold pfx in Hpf. simpl in Hpf. injection Hpf as <- _.
  assert (Hr' : r' = [] \/ exists t, r' = "/"%char :: t).
  { apply in_app_or in Hin as [Hin|Hin].
    - destruct hd; [|contradiction]. destruct Hin as [Hin|[]]. injection Hin as <- _. left. reflexivity.
    - destruct ch as [|d [|d' cs]]; [contradiction| |contradiction].
      destruct Hch as (_ & _ & Hsd). simpl in Hin. rewrite app_nil_r in Hin.
      unfold starts in Hsd. rewrite Forall_forall in Hsd. destruct (Hsd _ Hin) as [t Ht]. right. exists t. exact Ht. }
  unfold wild_ok. cbn [path nType is_catchAll negb].
  change (":"%char :: name ++ r') with ((":"%char :: name) ++ r'). rewrite firstn_length_app. unfold bytes_eqb. destruct (list_eq_dec ascii_dec _ _) as [_|E]; [|contradiction E; reflexivity].
  rewrite length_app. rewrite (proj2 (Nat.leb_le _ _)) by lia. cbn [andb].
  destruct Hr' as [-> | (t & ->)].
  - rewrite (proj2 (Nat.leb_le _ _)) by (simpl; lia). reflexivity.
  - rewrite app_nth2, Nat.sub_diag by lia. simpl. apply orb_true_r.
Qed.

Lemma descend_dup f c t h0 idx ch :
  NoDup idx -> kids_ok wf idx ch -> In (c :: t, h0) (flat_map routes ch) ->
  (forall c1, In c1 ch -> wf c1 -> (nType c1 = static \/ nType c1 = catchAll) ->
     In (c :: t, h0) (routes c1) -> f c1 = None) ->
  descend f c idx ch = Some None.
Proof.
  revert idx; induction ch as [|c1 cs IH]; intros [|b is]; simpl; try tauto.
  intros Hnd (Hb & Hs & Hty & Hw1 & Hk) Hin Hall.
  inversion Hnd as [|? ? Hnb Hnd']; subst.
  destruct (Ascii.eqb b c) eqn:Ebc.
  - apply Ascii.eqb_eq in Ebc. subst b.
    apply in_app_or in Hin as [Hin|Hin].
    + rewrite (Hall c1); auto. destruct Hty as [H|[_ H]]; auto.
    + destruct (kids_in_idx _ _ _ _ _ Hk Hin) as (b' & t' & E & Hb'). injection E as <- _. contradiction.
  - apply in_app_or in Hin as [Hin|Hin].
    + apply (starts_head _ _ _ _ _ Hs) in Hin. subst b. rewrite Ascii.eqb_refl in Ebc. discriminate.
    + rewrite (IH is Hnd' Hk Hin); auto.
Qed.

Lemma walk_dup : forall n, wf n -> nType n <> catchAll ->
  forall pth h0 np h, In (pth, h0) (routes n) -> walk n pth np h = None.
Proof.
  induction n as [n IH] using node_strong.
  destruct n as [p wc nt idx ch hd]. intros Hw Hnt pth h0 np h Hin.
  cbn [routes] in Hin. apply in_map_iff in Hin as ([r h1] & Hpf & Hin).
  unfold pfx in Hpf. simpl in Hpf. injection Hpf as <- _.
  cbn [walk]. rewrite lcp_app, Nat.ltb_irrefl, skipn_length_app.
  assert (Hown : forall t, In (t, h1) (match hd with Some h => [((@nil ascii), h)] | None => [] end) -> t = []).
  { intros t Ht. destruct hd; [|contradiction]. destruct Ht as [Ht|[]]. injection Ht as <- _. reflexivity. }
  destruct r as [|c t].
  - destruct hd as [h2|]; [reflexivity|]. exfalso. simpl in Hin.
    destruct nt; cbn [wf] in Hw.
    + destruct wc.
      * destruct Hw as (_ & _ & Hch). destruct ch as [|c0 [|]]; try contradiction. destruct Hch as [Hty0 Hw0].
        simpl in Hin. rewrite app_nil_r in Hin. exact (starts_no_nil _ _ _ (param_starts _ Hw0 Hty0) Hin).
      * destruct Hw as (_ & _ & Hk). destruct (kids_in_idx _ _ _ _ _ Hk Hin) as (? & ? & E & _). discriminate.
    + destruct wc.
      * destruct Hw as (_ & _ & Hch). destruct ch as [|c0 [|]]; try contradiction. destruct Hch as [Hty0 Hw0].
        simpl in Hin. rewrite app_nil_r in Hin. exact (starts_no_nil _ _ _ (param_starts _ Hw0 Hty0) Hin).
      * destruct Hw as (_ & _ & Hk). destruct (kids_in_idx _ _ _ _ _ Hk Hin) as (? & ? & E & _). discriminate.
    + destruct Hw as (_ & _ & Hch). destruct ch as [|d [|]]; try contradiction.
      destruct Hch as (_ & _ & Hsd). simpl in Hin. rewrite app_nil_r in Hin. exact (starts_no_nil _ _ _ Hsd Hin).
    + apply Hnt. reflexivity.
  - apply in_app_or in Hin as [Hin|Hin]; [apply Hown in Hin; discriminate|].
    assert (Hstat : forall wc' : bool, (nt = static \/ nt = root) ->
               (if wc' then idx = [] /\ match ch with [c1] => nType c1 = param /\ wf c1 | _ => False end
                else NoDup idx /\ kids_ok wf idx ch) ->
               (if wc' then match ch with
                  | c0 :: _ => if wild_ok c0 (c :: t) then
                                 match walk c0 (c :: t) (dec8 np) h with
                                 | Some c0' => Some (mkNode p wc' nt idx (c0' :: tl ch) hd)
                                 | None => None end
                               else None
                  | [] => None end
                else match descend (fun c1 => walk c1 (c :: t) np h) c idx ch with
                  | Some None => None
                  | Some (Some ch') => Some (mkNode p wc' nt idx ch' hd)
                  | None => grow (mkNode p wc' nt idx ch hd) (c :: t) np h end) = None).
    { intros wc' Hnt' Hw'. destruct wc'.
      - destruct Hw' as (_ & Hch). destruct ch as [|c0 [|]]; try contradiction. destruct Hch as [Hty0 Hw0].
        simpl in Hin. rewrite app_nil_r in Hin.
        rewrite (wild_ok_routes _ _ _ Hw0 Hty0 Hin).
        rewrite (IH c0 (height_child c0 p wc nt idx [c0] hd (or_introl eq_refl)) Hw0) with (h0 := h1);
          [reflexivity|congruence|exact Hin].
      - destruct Hw' as (Hnd & Hk). rewrite (descend_dup _ c t h1 idx ch Hnd Hk Hin); [reflexivity|].
        intros c1 Hc1 Hw1 [Hty1|Hty1] Hin1.
        + apply (IH c1 (height_child c1 p wc nt idx ch hd Hc1) Hw1) with (h0 := h1); [congruence|exact Hin1].
        + apply walk_cae; [exact Hw1|exact Hty1|discriminate]. }
    destruct nt.
    + cbn [wf] in Hw. destruct Hw as (_ & Hw). specialize (Hstat wc (or_introl eq_refl) Hw).
      destruct wc; [destruct ch; [reflexivity|exact Hstat]|exact Hstat].
    + cbn [wf] in Hw. destruct Hw as (_ & Hw). specialize (Hstat wc (or_intror eq_refl) Hw).
      destruct wc; [destruct ch; [reflexivity|exact Hstat]|exact Hstat].
    + cbn [wf] in Hw. destruct Hw as (-> & _ & Hch).
      destruct ch as [|d [|]]; try contradiction.
      destruct Hch as (Htd & Hwd & Hsd). simpl in Hin. rewrite app_nil_r in Hin.
      pose proof (starts_head _ _ _ _ _ Hsd Hin) as ->.
      cbn [is_param Ascii.eqb andb length Nat.eqb]. simpl.
      rewrite (IH d (height_child d p false param idx [d] hd (or_introl eq_refl)) Hwd) with (h0 := h1);
        [reflexivity|congruence|exact Hin].
    + exfalso. apply Hnt. reflexivity.
Qed.

Lemma find_child_cases {A} (f : node -> A) miss c is cs :
  find_child f miss c is cs = miss \/ exists c1, In c1 cs /\ find_child f miss c is cs = f c1.
Proof.
  revert is; induction cs as [|c1 cs IH]; intros [|b is]; simpl; auto.
  destruct (Ascii.eqb b c); [right; exists c1; auto|].
  destruct (IH is) as [H|(c2 & Hin & H)]; [left; exact H|right; exists c2; auto].
Qed.

Lemma getValue_hit_tsr : forall n q acc h ps b, getValue n q acc = (Some h, ps, b) -> b = false.
Proof.
  induction n as [n IH] using node_strong.
  destruct n as [np wc nt idx ch hd]. intros q acc h ps b. cbn [getValue].
  destruct (Nat.ltb (length np) (length q)).
  - destruct (bytes_eqb _ _); [|discriminate].
    destruct (negb wc).
    + match goal with |- find_child ?f ?m ?c ?i ?cs = _ -> _ =>
        destruct (find_child_cases f m c i cs) as [E|(c1 & Hin & E)]; rewrite E end.
      * destruct (_ && _); discriminate.
      * apply (IH c1 (height_child _ _ _ _ _ _ _ Hin)).
    + destruct ch as [|c0 cs]; [discriminate|].
      destruct c0 as [cp cwc cnt cidx cch chd] eqn:Ec0.
      destruct cnt; try discriminate.
      * destruct (Nat.ltb _ _).
        -- destruct cch as [|d ds]; [discriminate|].
           assert (Hd : height d < height (mkNode np wc nt idx (c0 :: cs) hd)).
           { eapply Nat.lt_trans; [apply (height_child d cp cwc param cidx (d :: ds) chd); left; reflexivity|].
             rewrite Ec0. apply height_child. left. reflexivity. }
           subst c0. apply (IH d Hd).
        -- destruct chd; [congruence|]. destruct cch as [|d [|]]; discriminate.
      * congruence.
  - destruct (bytes_eqb q np); [|discriminate].
    destruct hd; [congruence|]. destruct (_ && _ && _); discriminate.
Qed.

Lemma countParams_fit s : count_wild s <= 255 -> countParams s = count_wild s.
Proof. intros H. unfold countParams. apply Nat.min_l. exact H. Qed.

Lemma addRoute_walk n pth h :
  (path n <> [] \/ children n <> []) -> addRoute n pth h = walk n pth (countParams pth) h.
Proof.
  unfold addRoute. destruct (path n), (children n); auto. intros [H|H]; contradiction H; reflexivity.
Qed.

Lemma tree_ok_nonempty n : tree_ok n -> path n <> [] \/ children n <> [].
Proof.
  destruct n as [p wc nt idx ch hd]. cbn [path children]. intros (_ & _ & Hne & Hs).
  destruct p; [|left; discriminate]. destruct ch; [|right; discriminate]. exfalso.
  destruct hd as [h0|].
  - inversion Hs as [|? ? [t Ht] _]. discriminate.
  - apply Hne. reflexivity.
Qed.

Lemma addRoute_ok n pth h n' :
  tree_ok n -> count_wild pth <= 255 -> (exists t, pth = "/"%char :: t) ->
  addRoute n pth h = Some n' ->
  tree_ok n' /\ Permutation (routes n') ((pth, h) :: routes n).
Proof.
  intros Hok Hc [t Ht] Ha.
  rewrite addRoute_walk in Ha by (apply tree_ok_nonempty; exact Hok).
  rewrite countParams_fit in Ha by exact Hc.
  destruct Hok as (Hw & Hr & Hne & Hs).
  destruct (walk_ok n Hw _ _ _ _ Ha) as [Hst _].
  destruct (Hst (or_intror Hr) eq_refl) as (Hw' & Hr' & Hp).
  split; [|exact Hp]. split; [exact Hw'|]. split; [congruence|]. split.
  - intros E. rewrite E in Hp. exact (Permutation_nil_cons Hp).
  - apply (starts_perm _ ((pth, h) :: routes n)); [symmetry; exact Hp|].
    subst pth. apply starts_cons. exact Hs.
Qed.

Lemma addRoute_new pth h n' :
  count_wild pth <= 255 -> (exists t, pth = "/"%char :: t) ->
  addRoute new_node pth h = Some n' -> tree_ok n' /\ routes n' = [(pth, h)].
Proof.
  intros Hc [t Ht] Ha. unfold addRoute in Ha. cbn [path children new_node] in Ha.
  rewrite countParams_fit in Ha by exact Hc.
  destruct (insertChild new_node (count_wild pth) pth h) as [r|] eqn:Er; [|discriminate].
  injection Ha as <-.
  destruct (insert_loop_ok pth h pth (count_wild pth) 0 0 r eq_refl eq_refl eq_refl eq_refl
              (Nat.le_0_l _) Er) as (Hw & Hty & Hrr).
  destruct r as [rp rwc rnt ridx rch rhd]. cbn [nType] in Hty. subst rnt.
  cbn [path wildChild nType indices children handle].
  assert (Hrr' : routes (mkNode rp rwc root ridx rch rhd) = [(pth, h)]) by exact Hrr.
  split; [|exact Hrr'].
  split; [cbn [wf] in Hw |- *; exact Hw|]. split; [reflexivity|]. rewrite Hrr'. split; [discriminate|].
  subst pth. apply starts_cons. constructor.
Qed.

Lemma addRoute_dup n pth h0 h :
  tree_ok n -> In (pth, h0) (routes n) -> addRoute n pth h = None.
Proof.
  intros Hok Hin. rewrite addRoute_walk by (apply tree_ok_nonempty; exact Hok).
  destruct Hok as (Hw & Hr & _).
  apply (walk_dup n Hw) with (h0 := h0); [rewrite Hr; discriminate|exact Hin].
Qed.

Lemma find_set t m n m' :
  find_tree (set_tree t m n) m' = if String.eqb m m' then Some n else find_tree t m'.
Proof.
  induction t as [|[k v] t IH]; simpl.
  - destruct (String.eqb m m'); reflexivity.
  - destruct (String.eqb_spec k m) as [->|Hk]; simpl.
    + destruct (String.eqb m m'); reflexivity.
    + rewrite IH. destruct (String.eqb_spec k m') as [->|], (String.eqb_spec m m') as [->|];
        try congruence; reflexivity.
Qed.

Lemma router_Handle_ok r m path h r' :
  router_ok r -> count_wild (list_ascii_of_string path) <= 255 ->
  router_Handle r m path h = Some r' ->
  router_ok r'
  /\ Permutation (troutes r' m) ((list_ascii_of_string path, h) :: troutes r m)
  /\ (forall m', m' <> m -> troutes r' m' = troutes r m')
  /\ HandleOPTIONS r' = HandleOPTIONS r
  /\ RedirectFixedPath r' = RedirectFixedPath r
  /\ RedirectTrailingSlash r' = RedirectTrailingSlash r.
Proof.
  intros Hok Hc. unfold router_Handle.
  destruct path as [|c s]; [discriminate|].
  destruct (Ascii.eqb_spec c "/") as [->|]; [|discriminate].
  assert (Hsl : exists t, list_ascii_of_string (String "/" s) = "/"%char :: t) by (eexists; reflexivity).
  unfold troutes.
  destruct (find_tree (trees r) m) as [n|] eqn:Ef.
  - destruct (addRoute n (list_ascii_of_string (String "/" s)) h) as [n'|] eqn:Ea; [|discriminate].
    intros [= <-].
    destruct (addRoute_ok n _ h n' (Hok m n Ef) Hc Hsl Ea) as [Hok' Hp].
    unfold with_trees; cbn [trees HandleOPTIONS RedirectFixedPath RedirectTrailingSlash].
    split; [|split; [|split; [|repeat split]]].
    + unfold router_ok. cbn [trees]. intros m0 n0. rewrite find_set. destruct (String.eqb m m0); [intros [= <-]; exact Hok'|apply Hok].
    + rewrite find_set, String.eqb_refl. exact Hp.
    + intros m' Hm'. rewrite find_set. destruct (String.eqb_spec m m'); [congruence|reflexivity].
  - destruct (addRoute new_node (list_ascii_of_string (String "/" s)) h) as [n'|] eqn:Ea; [|discriminate].
    intros [= <-].
    destruct (addRoute_new _ h n' Hc Hsl Ea) as [Hok' Hp].
    unfold with_trees; cbn [trees HandleOPTIONS RedirectFixedPath RedirectTrailingSlash].
    split; [|split; [|split; [|repeat split]]].
    + unfold router_ok. cbn [trees]. intros m0 n0. rewrite find_set. destruct (String.eqb m m0); [intros [= <-]; exact Hok'|apply Hok].
    + rewrite find_set, String.eqb_refl, Hp. reflexivity.
    + intros m' Hm'. rewrite find_set. destruct (String.eqb_spec m m'); [congruence|reflexivity].
Qed.

Lemma router_Handle_dup r m path h0 h :
  router_ok r -> In (list_ascii_of_string path, h0) (troutes r m) -> router_Handle r m path h = None.
Proof.
  intros Hok. unfold router_Handle, troutes.
  destruct path as [|c s]; [reflexivity|].
  destruct (Ascii.eqb c "/"); [|reflexivity].
  destruct (find_tree (trees r) m) as [n|] eqn:Ef; [|intros []].
  intros Hin. rewrite (addRoute_dup n _ h0 h (Hok m n Ef) Hin). reflexivity.
Qed.

Lemma Lookup_hit r m q h ps :
  router_ok r -> In (h, ps) (matches (troutes r m) (list_ascii_of_string q)) ->
  Lookup r m q = (Some h, to_params ps, false).
Proof.
  intros Hok. unfold Lookup, troutes.
  destruct (find_tree (trees r) m) as [n|] eqn:Ef; [|intros []].
  intros Hin. destruct (Hok m n Ef) as (Hw & Hr & _).
  pose proof (getValue_ok n Hw (list_ascii_of_string q) [] (or_intror (or_introl Hr))) as G.
  destruct (getValue n (list_ascii_of_string q) []) as [[[h'|] ps'] b] eqn:Eg; cbn [gv_spec] in G.
  - destruct G as (qs & Hm & ->). rewrite Hm in Hin. destruct Hin as [E|[]]. injection E as -> ->.
    rewrite (getValue_hit_tsr _ _ _ _ _ _ Eg). reflexivity.
  - rewrite G in Hin. contradiction.
Qed.

Lemma Lookup_miss r m q :
  router_ok r -> matches (troutes r m) (list_ascii_of_string q) = [] ->
  fst (fst (Lookup r m q)) = None.
Proof.
  intros Hok. unfold Lookup, troutes.
  destruct (find_tree (trees r) m) as [n|] eqn:Ef; [|reflexivity].
  intros Hm. destruct (Hok m n Ef) as (Hw & Hr & _).
  pose proof (getValue_ok n Hw (list_ascii_of_string q) [] (or_intror (or_introl Hr))) as G.
  destruct (getValue n (list_ascii_of_string q) []) as [[[h'|] ps'] b]; cbn [gv_spec] in G; [|reflexivity].
  destruct G as (qs & Hm' & _). congruence.
Qed.

Lemma Lookup_sound r m q h ps b :
  router_ok r -> Lookup r m q = (Some h, ps, b) ->
  exists ps', In (h, ps') (matches (troutes r m) (list_ascii_of_string q)) /\ ps = to_params ps'.
Proof.
  intros Hok. unfold Lookup, troutes.
  destruct (find_tree (trees r) m) as [n|] eqn:Ef; [|discriminate].
  destruct (Hok m n Ef) as (Hw & Hr & _).
  pose proof (getValue_ok n Hw (list_ascii_of_string q) [] (or_intror (or_introl Hr))) as G.
  destruct (getValue n (list_ascii_of_string q) []) as [[[h'|] ps'] b']; cbn [gv_spec] in G; [|discriminate].
  intros [= -> <- _]. destruct G as (qs & Hm & ->). exists qs. rewrite Hm. split; [left; reflexivity|reflexivity].
Qed.

Lemma register_all_app srv l1 l2 :
  register_all srv (l1 ++ l2) =
  match register_all srv l1 with None => None | Some s => register_all s l2 end.
Proof.
  revert srv. induction l1 as [|[[m p] h] l1 IH]; intros srv; simpl; auto.
  destruct (router_Handle (router srv) m p h); auto.
Qed.

Lemma regs_routes_cons m m' p h regs :
  regs_routes m ((m', p, h) :: regs) =
  (if String.eqb m' m then [(list_ascii_of_string p, h)] else []) ++ regs_routes m regs.
Proof. reflexivity. Qed.

Lemma in_regs_routes m regs p h :
  In (m, p, h) regs -> In (list_ascii_of_string p, h) (regs_routes m regs).
Proof.
  induction regs as [|[[m' p'] h'] regs IH]; [intros []|].
  rewrite regs_routes_cons. intros [E|Hin]; apply in_or_app.
  - injection E as -> -> ->. left. rewrite String.eqb_refl. left. reflexivity.
  - right. apply IH. exact Hin.
Qed.

Lemma register_all_ok regs : forall srv srv',
  router_ok (router srv) -> forallb reg_fits regs = true ->
  register_all srv regs = Some srv' ->
  router_ok (router srv')
  /\ (forall m, Permutation (troutes (router srv') m) (regs_routes m regs ++ troutes (router srv) m))
  /\ HandleOPTIONS (router srv') = HandleOPTIONS (router srv)
  /\ RedirectFixedPath (router srv') = RedirectFixedPath (router srv)
  /\ RedirectTrailingSlash (router srv') = RedirectTrailingSlash (router srv).
Proof.
  induction regs as [|[[m0 p] h] regs IH]; intros srv srv' Hok Hfit.
  - intros [= <-]. split; [exact Hok|]. split; [intros m1; apply Permutation_refl|]. repeat split.
  - cbn [register_all]. cbn [forallb reg_fits] in Hfit.
    apply andb_prop in Hfit as [Hc Hfit]. apply Nat.leb_le in Hc.
    destruct (router_Handle (router srv) m0 p h) as [r|] eqn:Eh; [|discriminate].
    intros Hreg.
    destruct (router_Handle_ok _ _ _ _ _ Hok Hc Eh) as (Hok1 & Hp1 & Ho1 & Hf1 & Hf2 & Hf3).
    destruct (IH (MkServer r) srv' Hok1 Hfit Hreg) as (Hok2 & Hp2 & Hg1 & Hg2 & Hg3).
    cbn [router] in *. split; [exact Hok2|]. split; [|repeat split; congruence].
    intros m. rewrite regs_routes_cons. eapply perm_trans; [apply Hp2|].
    destruct (String.eqb_spec m0 m) as [->|Hne].
    + eapply perm_trans; [apply Permutation_app_head; exact Hp1|].
      simpl. apply Permutation_sym, Permutation_middle.
    + rewrite (Ho1 m) by congruence. reflexivity.
Qed.

Lemma register_all_dup regs1 regs2 srv m p h1 h2 :
  router_ok (router srv) -> forallb reg_fits regs1 = true ->
  In (m, p, h1) regs1 -> register_all srv (regs1 ++ (m, p, h2) :: regs2) = None.
Proof.
  intros Hok Hfit Hin. rewrite register_all_app.
  destruct (register_all srv regs1) as [s|] eqn:E; [|reflexivity].
  destruct (register_all_ok regs1 srv s Hok Hfit E) as (Hok' & Hp & _).
  cbn [register_all].
  rewrite (router_Handle_dup _ m p h1 h2 Hok'); [reflexivity|].
  apply (Permutation_in _ (Permutation_sym (Hp m))). apply in_or_app. left.
  apply in_regs_routes. exact Hin.
Qed.

Lemma matches_regs_routes m regs q h ps :
  In (h, ps) (matches (regs_routes m regs) q) <->
  exists p, In (m, p, h) regs /\ pmatch (list_ascii_of_string p) q = Some ps.
Proof.
  induction regs as [|[[m' p'] h'] regs IH].
  - split; [intros []|intros (p & [] & _)].
  - rewrite regs_routes_cons, matches_app, in_app_iff, IH.
    destruct (String.eqb_spec m' m) as [->|Hne].
    + unfold matches at 1. cbn [flat_map fst snd].
      destruct (pmatch (list_ascii_of_string p') q) as [ps'|] eqn:Em; cbn.
      * split.
        -- intros [[E|[]]|(p & Hin & Hp)].
           ++ injection E as -> ->. exists p'. split; [left; reflexivity|exact Em].
           ++ exists p. split; [right; exact Hin|exact Hp].
        -- intros (p & [E|Hin] & Hp).
           ++ injection E as -> ->. left. left. congruence.
           ++ right. exists p. auto.
      * split.
        -- intros [[]|(p & Hin & Hp)]. exists p. split; [right; exact Hin|exact Hp].
        -- intros (p & [E|Hin] & Hp).
           ++ injection E as -> ->. congruence.
           ++ right. exists p. auto.
    + cbn. split.
      * intros [[]|(p & Hin & Hp)]. exists p. split; [right; exact Hin|exact Hp].
      * intros (p & [E|Hin] & Hp).
        -- injection E as -> -> ->. congruence.
        -- right. exists p. auto.
Qed.

End TreeFacts.

(** ** String facts *)

Lemma IndexByte_absent s c :
  ~ In c (list_ascii_of_string s) -> IndexByte s c = (-1)%Z.
Proof.
  induction s as [|d s IH]; simpl; [reflexivity|].
  intros Hn. destruct (Ascii.eqb_spec c d) as [->|Hcd]; [tauto|].
  rewrite IH by tauto. reflexivity.
Qed.

Lemma IndexByte_first a b c :
  ~ In c (list_ascii_of_string a) ->
  IndexByte (a ++ String c b) c = Z.of_nat (String.length a).
Proof.
  induction a as [|d a IH]; simpl; intros Hn.
  - rewrite Ascii.eqb_refl. reflexivity.
  - destruct (Ascii.eqb_spec c d) as [->|Hcd]; [tauto|].
    rewrite IH by tauto.
    destruct (Z.eqb_spec (Z.of_nat (String.length a)) (-1)); lia.
Qed.

Lemma substring_full s : substring 0 (String.length s) s = s.
Proof. induction s as [|c s IH]; simpl; congruence. Qed.

Lemma substring_prefix a b : substring 0 (String.length a) (a ++ b) = a.
Proof. induction a as [|c a IH]; simpl; [destruct b; reflexivity | congruence]. Qed.

Lemma length_append a b : String.length (a ++ b) = String.length a + String.length b.
Proof. induction a as [|c a IH]; simpl; congruence. Qed.

Lemma slice_from_app a b : slice_from (String.length a) (a ++ b) = b.
Proof.
  unfold slice_from. rewrite length_append.
  replace (String.length a + String.length b - String.length a) with (String.length b) by lia.
  induction a as [|c a IH]; simpl; [apply substring_full | exact IH].
Qed.

Lemma miss_names_dot a b :
  ~ In "."%char (list_ascii_of_string a) -> miss_names (a ++ String "." b) = (a, b).
Proof.
  intros Hn. unfold miss_names. rewrite IndexByte_first by exact Hn.
  destruct (Z.eqb_spec (Z.of_nat (String.length a)) (-1)); [lia|].
  rewrite Nat2Z.id, substring_prefix. f_equal.
  replace (String.length a + 1) with (String.length (a ++ ".")) by
    (rewrite length_append; reflexivity).
  replace (a ++ String "." b) with ((a ++ ".") ++ b).
  - apply slice_from_app.
  - clear. induction a as [|c a IH]; simpl; congruence.
Qed.

Lemma miss_names_nodot ep :
  ~ In "."%char (list_ascii_of_string ep) -> miss_names ep = ("unknown", "Unknown").
Proof. intros Hn. unfold miss_names. rewrite IndexByte_absent by exact Hn. reflexivity. Qed.

(** ** From the configuration to the router *)

Lemma handle_methods_regs srv ms path h :
  handle_methods srv ms path h =
  register_all srv (map (fun m => (norm_method m, path, h)) ms).
Proof.
  revert srv. induction ms as [|m ms IH]; intros srv; simpl; [reflexivity|].
  unfold norm_method. destruct (router_Handle _ _ _ _); auto.
Qed.

Lemma setup_endpoints_regs srv svc eps :
  setup_endpoints srv svc eps = register_all srv (flat_map endpoint_regs eps).
Proof.
  revert srv. induction eps as [|ep eps IH]; intros srv; simpl; [reflexivity|].
  rewrite register_all_app. unfold handleRPC. rewrite handle_methods_regs.
  destruct (register_all srv _); auto.
Qed.

Lemma setup_services_regs srv svcs :
  setup_services srv svcs =
  register_all srv (flat_map (fun svc => flat_map endpoint_regs (Endpoints svc)) svcs).
Proof.
  revert srv. induction svcs as [|svc svcs IH]; intros srv; simpl; [reflexivity|].
  rewrite register_all_app, setup_endpoints_regs.
  destruct (register_all srv _); auto.
Qed.

Lemma registrations_services cfg :
  registrations cfg =
  flat_map (fun svc => flat_map endpoint_regs (Endpoints svc)) (Services cfg).
Proof.
  unfold registrations, config_endpoints.
  induction (Services cfg) as [|svc svcs IH]; simpl; [reflexivity|].
  rewrite flat_map_app, IH. f_equal.
  induction (Endpoints svc) as [|ep eps IH']; simpl; [reflexivity|].
  rewrite IH'. reflexivity.
Qed.

Lemma Setup_regs cfg : Setup cfg = register_all setup_start (registrations cfg).
Proof.
  unfold Setup. rewrite setup_services_regs, registrations_services. reflexivity.
Qed.

Lemma setup_start_ok : router_ok (router setup_start).
Proof. intros m n H. discriminate H. Qed.

Lemma router_Handle_flags r m p h r' :
  router_Handle r m p h = Some r' ->
  HandleOPTIONS r' = HandleOPTIONS r /\ RedirectFixedPath r' = RedirectFixedPath r
  /\ RedirectTrailingSlash r' = RedirectTrailingSlash r.
Proof.
  unfold router_Handle. destruct p as [|c s]; [discriminate|].
  destruct (Ascii.eqb c "/"); [|discriminate].
  destruct (addRoute _ _ _); [|discriminate].
  intros [= <-]. repeat split.
Qed.

Lemma register_all_flags regs : forall srv srv',
  register_all srv regs = Some srv' ->
  HandleOPTIONS (router srv') = HandleOPTIONS (router srv)
  /\ RedirectFixedPath (router srv') = RedirectFixedPath (router srv)
  /\ RedirectTrailingSlash (router srv') = RedirectTrailingSlash (router srv).
Proof.
  induction regs as [|[[m p] h] regs IH]; intros srv srv'; simpl.
  - intros [= <-]. repeat split.
  - destruct (router_Handle (router srv) m p h) as [r|] eqn:Eh; [|discriminate].
    intros Hr. destruct (router_Handle_flags _ _ _ _ _ Eh) as (F1 & F2 & F3).
    destruct (IH _ _ Hr) as (G1 & G2 & G3). simpl in *. repeat split; congruence.
Qed.

Lemma Setup_flags cfg srv :
  Setup cfg = Some srv ->
  HandleOPTIONS (router srv) = false /\ RedirectFixedPath (router srv) = false
  /\ RedirectTrailingSlash (router srv) = false.
Proof. rewrite Setup_regs. intros H. exact (register_all_flags _ _ _ H). Qed.

(** What [Setup] builds when every registered path fits: a well-formed
    router holding, under each method, exactly the routes registered for
    it. *)
Lemma Setup_routes cfg srv :
  wildcards_fit cfg = true -> Setup cfg = Some srv ->
  router_ok (router srv)
  /\ (forall m, Permutation (troutes (router srv) m) (regs_routes m (registrations cfg))).
Proof.
  intros Hfit Hs. rewrite Setup_regs in Hs.
  destruct (register_all_ok _ setup_start srv setup_start_ok Hfit Hs) as (Hok & Hp & _).
  split; [exact Hok|]. intros m. specialize (Hp m).
  assert (E : troutes (router setup_start) m = []) by reflexivity.
  rewrite E, app_nil_r in Hp. exact Hp.
Qed.

Lemma in_registrations cfg svc ep m :
  In svc (Services cfg) -> In ep (Endpoints svc) -> In m (Methods ep) ->
  In (norm_method m, Path ep, Handler ep) (registrations cfg).
Proof.
  intros Hs He Hm. rewrite registrations_services.
  apply in_flat_map. exists svc. split; [exact Hs|].
  apply in_flat_map. exists ep. split; [exact He|].
  unfold endpoint_regs. apply in_map_iff. exists m. auto.
Qed.

Lemma registrations_inv cfg m p h :
  In (m, p, h) (registrations cfg) ->
  exists svc ep m', In svc (Services cfg) /\ In ep (Endpoints svc) /\
    In m' (Methods ep) /\ norm_method m' = m /\ Path ep = p /\ Handler ep = h.
Proof.
  rewrite registrations_services. intros H.
  apply in_flat_map in H as (svc & Hs & H).
  apply in_flat_map in H as (ep & He & H).
  unfold endpoint_regs in H. apply in_map_iff in H as (m' & Heq & Hm).
  injection Heq as <- <- <-. exists svc, ep, m'. auto 10.
Qed.

Lemma norm_method_inv m m' :
  norm_method m = m' -> m = m' \/ m = "*" \/ m = wildcardMethod.
Proof.
  unfold norm_method. destruct (String.eqb_spec m "*") as [->|_]; intros <-; auto.
Qed.

(** A registered pattern matching the path is what the router finds. *)
Lemma lookup_registered cfg srv svc ep m path ps :
  wildcards_fit cfg = true -> Setup cfg = Some srv ->
  In svc (Services cfg) -> In ep (Endpoints svc) -> In m (Methods ep) ->
  path_matches (Path ep) path = Some ps ->
  Lookup (router srv) (norm_method m) path = (Some (Handler ep), ps, false).
Proof.
  intros Hfit Hs Hsv He Hm Hpm.
  destruct (Setup_routes _ _ Hfit Hs) as (Hok & Hp).
  unfold path_matches in Hpm.
  destruct (pmatch (list_ascii_of_string (Path ep)) (list_ascii_of_string path)) as [ps'|] eqn:Epm;
    [|discriminate].
  injection Hpm as <-.
  apply Lookup_hit; [exact Hok|].
  apply (Permutation_in _ (Permutation_sym (matches_perm _ _ _ (Hp (norm_method m))))).
  apply matches_regs_routes. exists (Path ep). split; [|exact Epm].
  apply (in_registrations cfg svc); assumption.
Qed.

(** With no registration under [meth] matching the path, the router finds
    nothing. *)
Lemma lookup_unregistered cfg srv meth path :
  wildcards_fit cfg = true -> Setup cfg = Some srv ->
  (forall svc ep m, In svc (Services cfg) -> In ep (Endpoints svc) -> In m (Methods ep) ->
     norm_method m = meth -> path_matches (Path ep) path = None) ->
  fst (fst (Lookup (router srv) meth path)) = None.
Proof.
  intros Hfit Hs Hn. destruct (Setup_routes _ _ Hfit Hs) as (Hok & Hp).
  apply Lookup_miss; [exact Hok|].
  destruct (matches (troutes (router srv) meth) (list_ascii_of_string path)) as [|[h ps'] l] eqn:E;
    [reflexivity|].
  exfalso.
  assert (Hin : In (h, ps') (matches (regs_routes meth (registrations cfg)) (list_ascii_of_string path))).
  { apply (Permutation_in _ (matches_perm _ _ _ (Hp meth))). rewrite E. left. reflexivity. }
  apply matches_regs_routes in Hin as (p & Hreg & Hpm).
  destruct (registrations_inv _ _ _ _ Hreg) as (svc & ep & m & Hsv & He & Hm & Hnm & Hpe & _).
  specialize (Hn svc ep m Hsv He Hm Hnm). unfold path_matches in Hn.
  rewrite Hpe, Hpm in Hn. discriminate.
Qed.

(** Every handle the router finds is registered under the method, with a
    pattern that matches the path with the parameters returned. *)
Lemma lookup_sound cfg srv meth path h ps b :
  wildcards_fit cfg = true -> Setup cfg = Some srv ->
  Lookup (router srv) meth path = (Some h, ps, b) ->
  exists svc ep m, In svc (Services cfg) /\ In ep (Endpoints svc) /\ In m (Methods ep)
    /\ norm_method m = meth /\ Handler ep = h /\ path_matches (Path ep) path = Some ps.
Proof.
  intros Hfit Hs Hl. destruct (Setup_routes _ _ Hfit Hs) as (Hok & Hp).
  destruct (Lookup_sound _ _ _ _ _ _ Hok Hl) as (ps' & Hin & ->).
  apply (Permutation_in _ (matches_perm _ _ _ (Hp meth))) in Hin.
  apply matches_regs_routes in Hin as (p & Hreg & Hpm).
  destruct (registrations_inv _ _ _ _ Hreg) as (svc & ep & m & Hsv & He & Hm & Hnm & Hpe & Hh).
  exists svc, ep, m. repeat split; auto.
  unfold path_matches. rewrite Hpe, Hpm. reflexivity.
Qed.

(** A duplicate (method, pattern) registration makes [register_all] fail
    once the routes before it fit. *)
Lemma registrations_dup cfg regs1 regs2 m p h1 h2 :
  wildcards_fit cfg = true ->
  registrations cfg = (regs1 ++ (m, p, h2) :: regs2)%list -> In (m, p, h1) regs1 ->
  Setup cfg = None.
Proof.
  intros Hfit Hr Hin. unfold wildcards_fit in Hfit. rewrite Hr, forallb_app in Hfit.
  apply andb_prop in Hfit as [Hfit1 _].
  rewrite Setup_regs, Hr. exact (register_all_dup _ _ _ _ _ _ _ setup_start_ok Hfit1 Hin).
Qed.

(** ** Facts about [handler] *)

Lemma handler_reserved srv req :
  reserved req = true ->
  handler srv req =
  (if String.eqb (slice_from (String.length "__encore.") (endpoint_id req)) "ScrapeMetrics"
   then ([], ScrapeMetrics)
   else ([], http_Error ("unknown internal endpoint: " ++ endpoint_id req) 404)).
Proof. unfold reserved, handler, endpoint_id. intros ->. reflexivity. Qed.

Lemma handler_exact srv req h ps b :
  reserved req = false ->
  Lookup (router srv) (Method req) (URL_Path req) = (Some h, ps, b) ->
  handler srv req = ([], Invoke h ps).
Proof.
  unfold reserved, handler, endpoint_id. intros -> Hg. rewrite Hg. reflexivity.
Qed.

Lemma handler_wildcard srv req h ps b ps0 b0 :
  reserved req = false ->
  Lookup (router srv) (Method req) (URL_Path req) = (None, ps0, b0) ->
  Lookup (router srv) wildcardMethod (URL_Path req) = (Some h, ps, b) ->
  handler srv req = ([], Invoke h ps).
Proof.
  unfold reserved, handler, endpoint_id. intros -> Hg Hw. rewrite Hg, Hw. reflexivity.
Qed.

Lemma handler_miss_tuple srv req ps0 b0 ps1 b1 :
  reserved req = false ->
  Lookup (router srv) (Method req) (URL_Path req) = (None, ps0, b0) ->
  Lookup (router srv) wildcardMethod (URL_Path req) = (None, ps1, b1) ->
  handler srv req = ([miss_names (endpoint_id req)], Respond json_header 404 notFoundBody).
Proof.
  unfold reserved, handler, endpoint_id, miss_names. intros -> Hg Hw. rewrite Hg, Hw.
  destruct (Z.eqb _ _); reflexivity.
Qed.

Lemma lookup_none_eta r m q :
  fst (fst (Lookup r m q)) = None ->
  Lookup r m q = (None, snd (fst (Lookup r m q)), snd (Lookup r m q)).
Proof. destruct (Lookup r m q) as [[o p] b]. simpl. intros ->. reflexivity. Qed.

(** Both lookups of [handler] find nothing: the routing-miss response. *)
Lemma handler_miss srv req :
  reserved req = false ->
  fst (fst (Lookup (router srv) (Method req) (URL_Path req))) = None ->
  fst (fst (Lookup (router srv) wildcardMethod (URL_Path req))) = None ->
  handler srv req = ([miss_names (endpoint_id req)], Respond json_header 404 notFoundBody).
Proof.
  intros Hres Hg Hw.
  exact (handler_miss_tuple _ _ _ _ _ _ Hres (lookup_none_eta _ _ _ Hg) (lookup_none_eta _ _ _ Hw)).
Qed.

(** Every response [handler] writes itself has status 404. *)
Lemma handler_status_404 srv req :
  match snd (handler srv req) with Respond _ st _ => st = 404%Z | _ => True end.
Proof.
  destruct (reserved req) eqn:Hres.
  - rewrite (handler_reserved _ _ Hres).
    destruct (String.eqb _ _); simpl; reflexivity || exact I.
  - destruct (Lookup (router srv) (Method req) (URL_Path req)) as [[[h|] ps] b] eqn:Hg.
    + rewrite (handler_exact _ _ _ _ _ Hres Hg). exact I.
    + destruct (Lookup (router srv) wildcardMethod (URL_Path req)) as [[[h'|] ps'] b'] eqn:Hw.
      * rewrite (handler_wildcard _ _ _ _ _ _ _ Hres Hg Hw). exact I.
      * rewrite (handler_miss_tuple _ _ _ _ _ _ Hres Hg Hw). reflexivity.
Qed.

(** The request an endpoint's registration routes, outside the reserved
    namespace, goes to that endpoint's handler. *)
Lemma dispatch_registered cfg srv svc ep m req ps :
  wildcards_fit cfg = true -> Setup cfg = Some srv ->
  In svc (Services cfg) -> In ep (Endpoints svc) -> In m (Methods ep) ->
  Method req = norm_method m ->
  path_matches (Path ep) (URL_Path req) = Some ps ->
  reserved req = false ->
  handler srv req = ([], Invoke (Handler ep) ps).
Proof.
  intros Hfit Hsetup Hs He Hm Hmeth Hmatch Hres.
  apply (handler_exact _ _ _ _ false Hres).
  rewrite Hmeth. eapply lookup_registered; eassumption.
Qed.

(** A request no registration routes gets the routing-miss response. *)
Lemma handler_unmatched cfg srv req :
  wildcards_fit cfg = true -> Setup cfg = Some srv ->
  reserved req = false ->
  (forall svc ep m, In svc (Services cfg) -> In ep (Endpoints svc) -> In m (Methods ep) ->
     norm_method m = Method req \/ norm_method m = wildcardMethod ->
     path_matches (Path ep) (URL_Path req) = None) ->
  handler srv req = ([miss_names (endpoint_id req)], Respond json_header 404 notFoundBody).
Proof.
  intros Hfit Hsetup Hres Hnone.
  apply handler_miss; [exact Hres | |];
    apply (lookup_unregistered cfg); try assumption;
    intros svc ep m Hs He Hm Hn; apply (Hnone svc ep m); auto.
Qed.

(** ** Configurations whose paths hold more than 255 wildcards *)

(** [countParams] saturates at 255, so [insertChild] and [getValue] go
    wrong on such paths.  With [cfg_spurious] the router finds a route for
    a path no pattern matches. *)
Lemma spurious_dispatch :
  wildcards_fit cfg_spurious = false
  /\ Setup cfg_spurious = Some (srv_of cfg_spurious)
  /\ reserved req_spurious = false
  /\ (forall svc ep m, In svc (Services cfg_spurious) -> In ep (Endpoints svc) ->
        In m (Methods ep) -> path_matches (Path ep) (URL_Path req_spurious) = None)
  /\ fst (handler (srv_of cfg_spurious) req_spurious) = []
  /\ invoked (snd (handler (srv_of cfg_spurious) req_spurious)) = Some h1.
Proof.
  split; [vm_compute; reflexivity|]. split; [vm_compute; reflexivity|].
  split; [vm_compute; reflexivity|]. split.
  - intros svc ep m Hs He Hm.
    destruct Hs as [<- | []].
    repeat (destruct He as [<- | He]; [vm_compute; reflexivity|]). destruct He.
  - split; vm_compute; reflexivity.
Qed.

Ltac miss_cases :=
  let svc := fresh in let ep := fresh in let m := fresh in
  let Hs := fresh in let He := fresh in let Hm := fresh in let Hn := fresh in
  intros svc ep m Hs He Hm Hn;
  repeat (destruct Hs as [<- | Hs]); try contradiction;
  repeat (destruct He as [<- | He]); try contradiction;
  repeat (destruct Hm as [<- | Hm]); try contradiction;
  vm_compute; reflexivity.

(** ** Claims *)

(** C1 (corrected).  A request with the method and a path matching the
    pattern of a registered endpoint is dispatched to that endpoint's
    handler with the extracted parameters, provided its path lies outside
    the reserved [__encore.] namespace and no registered path holds more
    than 255 wildcards. *)
Theorem registered_route_dispatch (cfg : ServerConfig) (srv : Server)
    (svc : Service) (ep : Endpoint) (m : string) (req : Request) (ps : Params) :
  wildcards_fit cfg = true ->
  Setup cfg = Some srv ->
  In svc (Services cfg) -> In ep (Endpoints svc) -> In m (Methods ep) ->
  m <> "*" ->
  Method req = m ->
  path_matches (Path ep) (URL_Path req) = Some ps ->
  reserved req = false ->
  handler srv req = ([], Invoke (Handler ep) ps).
Proof.
  intros Hfit Hsetup Hs He Hm Hstar Hmeth Hmatch Hres.
  apply (dispatch_registered cfg srv svc ep m); try assumption.
  unfold norm_method. destruct (String.eqb_spec m "*"); [contradiction | exact Hmeth].
Qed.

Lemma registered_route_dispatch_witness :
  wildcards_fit cfg_demo = true
  /\ Setup cfg_demo = Some (srv_of cfg_demo)
  /\ handler (srv_of cfg_demo) (MkRequest "GET" "/orders/42")
     = ([], Invoke h1 [("id", "42")]).
Proof.
  split; [reflexivity|]. split; [vm_compute; reflexivity|].
  apply (registered_route_dispatch cfg_demo (srv_of cfg_demo)
           (MkService "orders" [ep_get; ep_any]) ep_get "GET");
    [reflexivity | vm_compute; reflexivity | left; reflexivity | left; reflexivity
    | left; reflexivity | discriminate | reflexivity | reflexivity | reflexivity].
Defined.

(** C1 fails for an endpoint registered inside the reserved namespace:
    GET /__encore.Foo, registered under GET, gets the internal 404.  And it
    fails when a path holds more than 255 wildcards: with [cfg_overflow],
    GET values255/xa matches the GET pattern params255/xa but gets the
    routing-miss 404. *)
Lemma registered_route_dispatch_counterexample :
  (Setup cfg_reserved = Some (srv_of cfg_reserved)
   /\ path_matches (Path ep_res_get) "/__encore.Foo" = Some []
   /\ handler (srv_of cfg_reserved) (MkRequest "GET" "/__encore.Foo")
      = ([], http_Error "unknown internal endpoint: __encore.Foo" 404)
   /\ handler (srv_of cfg_reserved) (MkRequest "GET" "/__encore.Foo")
      <> ([], Invoke (Handler ep_res_get) []))
  /\ (let ps := match path_matches (Path ovf_a) (values255 ++ "/xa") with
                | Some ps => ps | None => [] end in
      Setup cfg_overflow = Some (srv_of cfg_overflow)
      /\ path_matches (Path ovf_a) (values255 ++ "/xa") = Some ps
      /\ reserved (MkRequest "GET" (values255 ++ "/xa")) = false
      /\ handler (srv_of cfg_overflow) (MkRequest "GET" (values255 ++ "/xa"))
         = ([("unknown", "Unknown")], Respond json_header 404 notFoundBody)
      /\ handler (srv_of cfg_overflow) (MkRequest "GET" (values255 ++ "/xa"))
         <> ([], Invoke (Handler ovf_a) ps)).
Proof.
  split.
  - split; [vm_compute; reflexivity|]. split; [reflexivity|].
    split; [vm_compute; reflexivity|]. vm_compute. discriminate.
  - vm_compute. repeat split; reflexivity || discriminate.
Qed.

(** C2 (corrected).  When a path pattern is registered both under a
    concrete method and under the wildcard marker, a request with that
    method and a matching path outside the reserved [__encore.] namespace
    goes to the exact-method handler, provided no registered path holds
    more than 255 wildcards: the wildcard lookup only runs after the exact
    lookup found nothing. *)
Theorem exact_method_precedence (cfg : ServerConfig) (srv : Server)
    (svc1 : Service) (ep1 : Endpoint) (m : string)
    (svc2 : Service) (ep2 : Endpoint) (req : Request) (ps : Params) :
  wildcards_fit cfg = true ->
  Setup cfg = Some srv ->
  In svc1 (Services cfg) -> In ep1 (Endpoints svc1) -> In m (Methods ep1) ->
  m <> "*" -> m <> wildcardMethod ->
  In svc2 (Services cfg) -> In ep2 (Endpoints svc2) -> In "*" (Methods ep2) ->
  Path ep2 = Path ep1 ->
  Method req = m ->
  path_matches (Path ep1) (URL_Path req) = Some ps ->
  reserved req = false ->
  handler srv req = ([], Invoke (Handler ep1) ps).
Proof.
  intros Hfit Hsetup Hs1 He1 Hm1 Hstar Hwild Hs2 He2 Hm2 Hpath Hmeth Hmatch Hres.
  apply (handler_exact _ _ _ _ false Hres).
  assert (Hn : norm_method m = m).
  { unfold norm_method. destruct (String.eqb_spec m "*"); [contradiction | reflexivity]. }
  pose proof (lookup_registered cfg srv svc1 ep1 m _ _ Hfit Hsetup Hs1 He1 Hm1 Hmatch) as G.
  rewrite Hn in G. rewrite Hmeth. exact G.
Qed.

Lemma exact_method_precedence_witness :
  wildcards_fit cfg_demo = true
  /\ Setup cfg_demo = Some (srv_of cfg_demo)
  /\ handler (srv_of cfg_demo) (MkRequest "GET" "/orders/42")
     = ([], Invoke h1 [("id", "42")]).
Proof.
  split; [reflexivity|]. split; [vm_compute; reflexivity|].
  apply (exact_method_precedence cfg_demo (srv_of cfg_demo)
           (MkService "orders" [ep_get; ep_any]) ep_get "GET"
           (MkService "orders" [ep_get; ep_any]) ep_any);
    [reflexivity | vm_compute; reflexivity | left; reflexivity | left; reflexivity
    | left; reflexivity | discriminate | discriminate | left; reflexivity
    | right; left; reflexivity | left; reflexivity | reflexivity | reflexivity
    | reflexivity | reflexivity].
Defined.

(** C2 fails inside the reserved namespace: /__encore.Foo registered under
    GET and under "*", a GET request for it reaches neither handler.  And
    it fails past 255 wildcards: with [cfg_overflow_any], GET
    values255/xa, whose pattern params255/xa is registered under GET and
    under "*", reaches the wildcard handler [h4]. *)
Lemma exact_method_precedence_counterexample :
  (Setup cfg_reserved = Some (srv_of cfg_reserved)
   /\ path_matches (Path ep_res_get) "/__encore.Foo" = Some []
   /\ Path ep_res_any = Path ep_res_get
   /\ handler (srv_of cfg_reserved) (MkRequest "GET" "/__encore.Foo")
      <> ([], Invoke (Handler ep_res_get) []))
  /\ (let ps := match path_matches (Path ovf_a) (values255 ++ "/xa") with
                | Some ps => ps | None => [] end in
      Setup cfg_overflow_any = Some (srv_of cfg_overflow_any)
      /\ Path ovf_any = Path ovf_a
      /\ path_matches (Path ovf_a) (values255 ++ "/xa") = Some ps
      /\ reserved (MkRequest "GET" (values255 ++ "/xa")) = false
      /\ handler (srv_of cfg_overflow_any) (MkRequest "GET" (values255 ++ "/xa"))
         = ([], Invoke (Handler ovf_any) ps)
      /\ Handler ovf_any <> Handler ovf_a).
Proof.
  split.
  - split; [vm_compute; reflexivity|]. split; [reflexivity|]. split; [reflexivity|].
    vm_compute. discriminate.
  - vm_compute. repeat split; reflexivity || discriminate.
Qed.

(** C3 (corrected).  A request with any method whose path matches the
    pattern of an endpoint declared with the wildcard marker "*" goes to
    that endpoint's handler, provided no registration under the request's
    own method matches the path, the path lies outside the reserved
    [__encore.] namespace and no registered path holds more than 255
    wildcards. *)
Theorem wildcard_fallback (cfg : ServerConfig) (srv : Server)
    (svc : Service) (ep : Endpoint) (req : Request) (ps : Params) :
  wildcards_fit cfg = true ->
  Setup cfg = Some srv ->
  In svc (Services cfg) -> In ep (Endpoints svc) -> In "*" (Methods ep) ->
  path_matches (Path ep) (URL_Path req) = Some ps ->
  (forall svc' ep' m', In svc' (Services cfg) -> In ep' (Endpoints svc') ->
     In m' (Methods ep') -> norm_method m' = Method req ->
     path_matches (Path ep') (URL_Path req) = None) ->
  reserved req = false ->
  handler srv req = ([], Invoke (Handler ep) ps).
Proof.
  intros Hfit Hsetup Hs He Hm Hmatch Hnone Hres.
  pose proof (lookup_unregistered cfg srv (Method req) (URL_Path req) Hfit Hsetup Hnone) as Hg.
  apply (handler_wildcard _ _ _ _ false _ _ Hres (lookup_none_eta _ _ _ Hg)).
  apply (lookup_registered cfg srv svc ep "*"); assumption.
Qed.

Lemma wildcard_fallback_witness :
  wildcards_fit cfg_demo = true
  /\ Setup cfg_demo = Some (srv_of cfg_demo)
  /\ handler (srv_of cfg_demo) (MkRequest "POST" "/orders/42")
     = ([], Invoke h2 [("id", "42")]).
Proof.
  split; [reflexivity|]. split; [vm_compute; reflexivity|].
  apply (wildcard_fallback cfg_demo (srv_of cfg_demo)
           (MkService "orders" [ep_get; ep_any]) ep_any);
    [reflexivity | vm_compute; reflexivity | left; reflexivity
    | right; left; reflexivity | left; reflexivity | reflexivity | | reflexivity].
  intros svc' ep' m' Hs He Hm Hn.
  destruct Hs as [<- | []].
  destruct He as [<- | [<- | []]]; destruct Hm as [<- | []]; vm_compute in Hn; discriminate.
Defined.

(** C3 fails inside the reserved namespace: /__encore.Foo registered under
    "*", a POST request for it does not reach the wildcard handler.  And it
    fails past 255 wildcards: with [cfg_overflow_star], where no route is
    registered under POST, POST values255/xa matches the "*" pattern
    params255/xa but gets the routing-miss 404. *)
Lemma wildcard_fallback_counterexample :
  (Setup cfg_reserved = Some (srv_of cfg_reserved)
   /\ path_matches (Path ep_res_any) "/__encore.Foo" = Some []
   /\ handler (srv_of cfg_reserved) (MkRequest "POST" "/__encore.Foo")
      <> ([], Invoke (Handler ep_res_any) []))
  /\ (let ps := match path_matches (Path ovf_star_a) (values255 ++ "/xa") with
                | Some ps => ps | None => [] end in
      Setup cfg_overflow_star = Some (srv_of cfg_overflow_star)
      /\ (forall svc ep m, In svc (Services cfg_overflow_star) -> In ep (Endpoints svc) ->
            In m (Methods ep) -> norm_method m <> "POST")
      /\ path_matches (Path ovf_star_a) (values255 ++ "/xa") = Some ps
      /\ reserved (MkRequest "POST" (values255 ++ "/xa")) = false
      /\ handler (srv_of cfg_overflow_star) (MkRequest "POST" (values255 ++ "/xa"))
         = ([("unknown", "Unknown")], Respond json_header 404 notFoundBody)
      /\ handler (srv_of cfg_overflow_star) (MkRequest "POST" (values255 ++ "/xa"))
         <> ([], Invoke (Handler ovf_star_a) ps)).
Proof.
  split.
  - split; [vm_compute; reflexivity|]. split; [reflexivity|].
    vm_compute. discriminate.
  - cbv zeta. split; [vm_compute; reflexivity|]. split.
    + intros svc ep m Hs He Hm. destruct Hs as [<- | []].
      destruct He as [<- | [<- | [<- | []]]]; destruct Hm as [<- | []];
        intros H; vm_compute in H; discriminate H.
    + vm_compute. repeat split; reflexivity || discriminate.
Qed.

(** C4.  A request whose path, without its leading "/", begins with
    "__encore." is answered without consulting the router: its outcome is
    the same whatever routes the server holds, it reaches no user handler
    and makes no counter call; /__encore.ScrapeMetrics runs the metrics
    scrape even when a user endpoint has that path. *)
Theorem internal_namespace_first (srv srv' : Server) (req : Request) :
  reserved req = true ->
  handler srv req = handler srv' req
  /\ fst (handler srv req) = []
  /\ (forall h ps, snd (handler srv req) <> Invoke h ps)
  /\ (URL_Path req = "/__encore.ScrapeMetrics" -> handler srv req = ([], ScrapeMetrics)).
Proof.
  intros Hres. rewrite !(handler_reserved _ _ Hres).
  split; [reflexivity|]. split; [destruct (String.eqb _ _); reflexivity|].
  split; [intros h ps; destruct (String.eqb _ _); discriminate|].
  intros Hp. unfold endpoint_id. rewrite Hp. reflexivity.
Qed.

Lemma internal_namespace_first_witness :
  Lookup (router (srv_of cfg_shadow)) "GET" "/__encore.ScrapeMetrics" = (Some h1, [], false)
  /\ reserved (MkRequest "GET" "/__encore.ScrapeMetrics") = true
  /\ handler (srv_of cfg_shadow) (MkRequest "GET" "/__encore.ScrapeMetrics")
     = ([], ScrapeMetrics).
Proof.
  split; [vm_compute; reflexivity|]. split; [reflexivity|].
  apply (internal_namespace_first (srv_of cfg_shadow) setup_start
           (MkRequest "GET" "/__encore.ScrapeMetrics")); reflexivity.
Defined.

(** C5 (corrected).  A request outside the reserved namespace that matches
    no pattern registered under its method or under the wildcard marker
    gets status 404, a JSON content type and the fixed not-found body
    [notFoundBody], provided no registered path holds more than 255
    wildcards. *)
Theorem not_found_response (cfg : ServerConfig) (srv : Server) (req : Request) :
  wildcards_fit cfg = true ->
  Setup cfg = Some srv ->
  reserved req = false ->
  (forall svc ep m, In svc (Services cfg) -> In ep (Endpoints svc) -> In m (Methods ep) ->
     norm_method m = Method req \/ norm_method m = wildcardMethod ->
     path_matches (Path ep) (URL_Path req) = None) ->
  snd (handler srv req) = Respond [("Content-Type", "application/json")] 404 notFoundBody.
Proof.
  intros Hfit Hsetup Hres Hnone.
  rewrite (handler_unmatched cfg srv req Hfit Hsetup Hres Hnone). reflexivity.
Qed.

Lemma not_found_response_witness :
  wildcards_fit cfg_demo = true
  /\ Setup cfg_demo = Some (srv_of cfg_demo)
  /\ handler (srv_of cfg_demo) (MkRequest "GET" "/orders.Create")
     = ([("orders", "Create")],
        Respond [("Content-Type", "application/json")] 404 notFoundBody)
  /\ snd (handler (srv_of cfg_demo) (MkRequest "GET" "/orders.Create"))
     = Respond [("Content-Type", "application/json")] 404 notFoundBody.
Proof.
  split; [reflexivity|]. split; [vm_compute; reflexivity|]. split; [vm_compute; reflexivity|].
  apply (not_found_response cfg_demo);
    [reflexivity | vm_compute; reflexivity | reflexivity | miss_cases].
Defined.

(** C5 as stated fails past 255 wildcards: with [cfg_spurious], GET
    values255/:za matches none of the four GET patterns, yet the router
    hands it to [h1] instead of answering 404. *)
Lemma not_found_response_counterexample :
  Setup cfg_spurious = Some (srv_of cfg_spurious)
  /\ reserved req_spurious = false
  /\ (forall svc ep m, In svc (Services cfg_spurious) -> In ep (Endpoints svc) ->
        In m (Methods ep) ->
        norm_method m = Method req_spurious \/ norm_method m = wildcardMethod ->
        path_matches (Path ep) (URL_Path req_spurious) = None)
  /\ invoked (snd (handler (srv_of cfg_spurious) req_spurious)) = Some h1
  /\ snd (handler (srv_of cfg_spurious) req_spurious)
     <> Respond [("Content-Type", "application/json")] 404 notFoundBody.
Proof.
  destruct spurious_dispatch as (_ & Hs & Hr & Hn & _ & Hi).
  split; [exact Hs|]. split; [exact Hr|]. split.
  - intros svc ep m H1 H2 H3 _. exact (Hn svc ep m H1 H2 H3).
  - split; [exact Hi|]. intros He. rewrite He in Hi. simpl in Hi. discriminate Hi.
Qed.

(** C6.  On a routing miss (neither lookup of [handler] finds a handle,
    outside the reserved namespace), [handler] makes exactly one call of
    [metrics.UnknownEndpoint]: with the text before and after the first "."
    of the path without its leading "/", or with ("unknown", "Unknown")
    when it has no ".". *)
Theorem unknown_endpoint_counter (srv : Server) (req : Request) :
  reserved req = false ->
  fst (fst (Lookup (router srv) (Method req) (URL_Path req))) = None ->
  fst (fst (Lookup (router srv) wildcardMethod (URL_Path req))) = None ->
  (forall a b, endpoint_id req = a ++ String "." b ->
     ~ In "."%char (list_ascii_of_string a) ->
     fst (handler srv req) = [(a, b)])
  /\ (~ In "."%char (list_ascii_of_string (endpoint_id req)) ->
      fst (handler srv req) = [("unknown", "Unknown")]).
Proof.
  intros Hres Hg Hw.
  rewrite (handler_miss srv req Hres Hg Hw). simpl. split.
  - intros a b Hep Hn. rewrite Hep, miss_names_dot by exact Hn. reflexivity.
  - intros Hn. rewrite miss_names_nodot by exact Hn. reflexivity.
Qed.

Lemma unknown_endpoint_counter_witness :
  fst (handler (srv_of cfg_demo) (MkRequest "GET" "/orders.Create")) = [("orders", "Create")]
  /\ fst (handler (srv_of cfg_demo) (MkRequest "GET" "/bogus")) = [("unknown", "Unknown")].
Proof.
  split.
  - apply (proj1 (unknown_endpoint_counter (srv_of cfg_demo)
                    (MkRequest "GET" "/orders.Create") eq_refl
                    ltac:(vm_compute; reflexivity) ltac:(vm_compute; reflexivity))
                 "orders" "Create" eq_refl).
    vm_compute. intuition discriminate.
  - apply (proj2 (unknown_endpoint_counter (srv_of cfg_demo)
                    (MkRequest "GET" "/bogus") eq_refl
                    ltac:(vm_compute; reflexivity) ltac:(vm_compute; reflexivity))).
    vm_compute. intuition discriminate.
Defined.

(** C7 (corrected).  A request to /__encore.<name> with a name other than
    ScrapeMetrics gets status 404 and a plain-text body made of
    "unknown internal endpoint: ", the whole path without its leading "/"
    (prefix "__encore." included) and the newline [http.Error] adds. *)
Theorem unknown_internal_endpoint (srv : Server) (req : Request) (name : string) :
  endpoint_id req = "__encore." ++ name ->
  name <> "ScrapeMetrics" ->
  handler srv req =
  ([], Respond [("Content-Type", "text/plain; charset=utf-8");
                ("X-Content-Type-Options", "nosniff")] 404
               ("unknown internal endpoint: __encore." ++ name ++ nl)).
Proof.
  intros Hep Hname.
  assert (Hres : reserved req = true) by (unfold reserved; rewrite Hep; reflexivity).
  rewrite (handler_reserved _ _ Hres), Hep, slice_from_app.
  destruct (String.eqb_spec name "ScrapeMetrics"); [contradiction|].
  reflexivity.
Qed.

Lemma unknown_internal_endpoint_witness :
  handler setup_start (MkRequest "GET" "/__encore.NotARealAPI") =
  ([], Respond [("Content-Type", "text/plain; charset=utf-8");
                ("X-Content-Type-Options", "nosniff")] 404
               ("unknown internal endpoint: __encore.NotARealAPI" ++ nl)).
Proof.
  apply (unknown_internal_endpoint setup_start _ "NotARealAPI");
    [reflexivity | discriminate].
Defined.

(** C7 as stated fails: the body for /__encore.NotARealAPI is not
    "unknown internal endpoint: NotARealAPI". *)
Lemma unknown_internal_endpoint_counterexample :
  response_body (snd (handler setup_start (MkRequest "GET" "/__encore.NotARealAPI")))
  = Some ("unknown internal endpoint: __encore.NotARealAPI" ++ nl)
  /\ response_body (snd (handler setup_start (MkRequest "GET" "/__encore.NotARealAPI")))
     <> Some "unknown internal endpoint: NotARealAPI".
Proof.
  split; [reflexivity|]. vm_compute. discriminate.
Qed.

(** C8 (corrected).  When two endpoints of the configuration register the
    same (method, path pattern) pair, "*" counting as the wildcard marker,
    [Setup] panics, provided no registered path holds more than 255
    wildcards: httprouter refuses the second registration. *)
Theorem duplicate_registration_fails (cfg : ServerConfig)
    (e1 e2 e3 : list (string * Endpoint)) (s1 s2 : string) (ep1 ep2 : Endpoint)
    (m1 m2 : string) :
  wildcards_fit cfg = true ->
  config_endpoints cfg = (e1 ++ (s1, ep1) :: e2 ++ (s2, ep2) :: e3)%list ->
  In m1 (Methods ep1) -> In m2 (Methods ep2) ->
  norm_method m1 = norm_method m2 -> Path ep1 = Path ep2 ->
  Setup cfg = None.
Proof.
  intros Hfit Hcfg Hm1 Hm2 Hm Hp.
  assert (Hin2 : In (norm_method m2, Path ep2, Handler ep2) (endpoint_regs ep2)).
  { unfold endpoint_regs. apply in_map_iff. eauto. }
  destruct (in_split _ _ Hin2) as (l1 & l2 & Hsplit).
  apply (registrations_dup cfg
           (flat_map (fun se : string * Endpoint => endpoint_regs (snd se)) e1
            ++ endpoint_regs ep1
            ++ flat_map (fun se : string * Endpoint => endpoint_regs (snd se)) e2 ++ l1)%list
           (l2 ++ flat_map (fun se : string * Endpoint => endpoint_regs (snd se)) e3)%list
           (norm_method m2) (Path ep2) (Handler ep1) (Handler ep2) Hfit).
  - unfold registrations. rewrite Hcfg, !flat_map_app. simpl.
    rewrite flat_map_app. simpl. rewrite Hsplit. rewrite <- !app_assoc. reflexivity.
  - apply in_or_app. right. apply in_or_app. left.
    unfold endpoint_regs. apply in_map_iff. exists m1. rewrite Hm, Hp. auto.
Qed.

Lemma duplicate_registration_fails_witness :
  wildcards_fit cfg_dup = true
  /\ config_endpoints cfg_dup = ([] ++ ("svc", ep_a1) :: [] ++ ("svc", ep_a2) :: [])%list
  /\ Setup cfg_dup = None.
Proof.
  split; [reflexivity|]. split; [reflexivity|].
  apply (duplicate_registration_fails cfg_dup [] [] [] "svc" "svc" ep_a1 ep_a2 "GET" "GET");
    [reflexivity | reflexivity | left; reflexivity | left; reflexivity | reflexivity
    | reflexivity].
Defined.

(** C8 as stated fails past 255 wildcards: [cfg_overflow_dup] registers GET
    params255/xa twice, [Setup] completes, and the router keeps the second
    registration's handle [h2]. *)
Lemma duplicate_registration_fails_counterexample :
  config_endpoints cfg_overflow_dup
  = ([] ++ ("svc", ovf_a) :: [("svc", ovf_b); ("svc", ovf_c)] ++ ("svc", ovf_a2) :: [])%list
  /\ In "GET" (Methods ovf_a) /\ In "GET" (Methods ovf_a2) /\ Path ovf_a = Path ovf_a2
  /\ Setup cfg_overflow_dup = Some (srv_of cfg_overflow_dup)
  /\ Setup cfg_overflow_dup <> None
  /\ fst (fst (Lookup (router (srv_of cfg_overflow_dup)) "GET" (values255 ++ "/xa")))
     = Some (Handler ovf_a2).
Proof.
  split; [reflexivity|]. split; [left; reflexivity|]. split; [left; reflexivity|].
  split; [reflexivity|]. split; [vm_compute; reflexivity|]. split.
  - vm_compute. discriminate.
  - vm_compute. reflexivity.
Qed.

(** C9 (corrected).  The wildcard marker is the method string
    "__ENCORE_WILDCARD__": an endpoint listing it is registered exactly as
    one listing "*", and a request whose method is that string finds a
    wildcard route already at the first (exact-method) lookup of [handler],
    provided no registered path holds more than 255 wildcards. *)
Theorem wildcard_marker_literal (cfg : ServerConfig) (srv : Server)
    (svc : Service) (ep : Endpoint) (req : Request) (ps : Params) :
  wildcards_fit cfg = true ->
  Setup cfg = Some srv ->
  In svc (Services cfg) -> In ep (Endpoints svc) ->
  In "*" (Methods ep) \/ In "__ENCORE_WILDCARD__" (Methods ep) ->
  Method req = "__ENCORE_WILDCARD__" ->
  path_matches (Path ep) (URL_Path req) = Some ps ->
  Lookup (router srv) (Method req) (URL_Path req) = (Some (Handler ep), ps, false)
  /\ (forall srv0 service ms1 ms2,
        handleRPC srv0 service
          (MkEndpoint (Name ep) (Path ep) (ms1 ++ "__ENCORE_WILDCARD__" :: ms2) (Handler ep))
        = handleRPC srv0 service
          (MkEndpoint (Name ep) (Path ep) (ms1 ++ "*" :: ms2) (Handler ep))).
Proof.
  intros Hfit Hsetup Hs He Hm Hmeth Hmatch. split.
  - rewrite Hmeth. destruct Hm as [Hm | Hm].
    + exact (lookup_registered _ _ _ _ _ _ _ Hfit Hsetup Hs He Hm Hmatch).
    + exact (lookup_registered _ _ _ _ _ _ _ Hfit Hsetup Hs He Hm Hmatch).
  - intros srv0 service ms1 ms2. unfold handleRPC. simpl.
    rewrite !handle_methods_regs, !map_app. reflexivity.
Qed.

Lemma wildcard_marker_literal_witness :
  wildcards_fit cfg_demo = true
  /\ Lookup (router (srv_of cfg_demo)) "__ENCORE_WILDCARD__" "/orders/42"
     = (Some h2, [("id", "42")], false).
Proof.
  split; [reflexivity|].
  apply (proj1 (wildcard_marker_literal cfg_demo (srv_of cfg_demo)
                  (MkService "orders" [ep_get; ep_any]) ep_any
                  (MkRequest "__ENCORE_WILDCARD__" "/orders/42") [("id", "42")]
                  eq_refl ltac:(vm_compute; reflexivity) (or_introl eq_refl)
                  (or_intror (or_introl eq_refl))
                  (or_introl (or_introl eq_refl)) eq_refl eq_refl)).
Defined.

(** C9 as stated fails past 255 wildcards: with [cfg_overflow_star], a
    request with method "__ENCORE_WILDCARD__" and path values255/xa, which
    the "*" pattern params255/xa matches, finds nothing at the exact-method
    lookup. *)
Lemma wildcard_marker_literal_counterexample :
  Setup cfg_overflow_star = Some (srv_of cfg_overflow_star)
  /\ In "*" (Methods ovf_star_a)
  /\ path_matches (Path ovf_star_a) (values255 ++ "/xa") <> None
  /\ fst (fst (Lookup (router (srv_of cfg_overflow_star)) "__ENCORE_WILDCARD__"
                      (values255 ++ "/xa"))) = None.
Proof.
  split; [vm_compute; reflexivity|]. split; [left; reflexivity|].
  split; vm_compute; [discriminate | reflexivity].
Qed.

(** C10 (corrected).  The router [Setup] builds has HandleOPTIONS,
    RedirectFixedPath and RedirectTrailingSlash off, every response
    [handler] writes itself has status 404 (never a redirect), and the
    trailing-slash recommendation of [Lookup] is ignored: when no
    registered path holds more than 255 wildcards, a request outside the
    reserved namespace that no pattern under its method or the wildcard
    marker matches gets the routing-miss 404.  A path that differs from a
    registered pattern by a trailing slash can still match another pattern
    and reach its handler. *)
Theorem no_redirects (cfg : ServerConfig) (srv : Server) :
  Setup cfg = Some srv ->
  HandleOPTIONS (router srv) = false
  /\ RedirectFixedPath (router srv) = false
  /\ RedirectTrailingSlash (router srv) = false
  /\ (forall req, match snd (handler srv req) with
                  | Respond _ st _ => st = 404%Z
                  | _ => True
                  end)
  /\ (wildcards_fit cfg = true ->
      forall req, reserved req = false ->
        (forall svc ep m, In svc (Services cfg) -> In ep (Endpoints svc) ->
           In m (Methods ep) ->
           norm_method m = Method req \/ norm_method m = wildcardMethod ->
           path_matches (Path ep) (URL_Path req) = None) ->
        snd (handler srv req) = Respond [("Content-Type", "application/json")] 404 notFoundBody).
Proof.
  intros Hsetup.
  destruct (Setup_flags _ _ Hsetup) as (Ho & Hf & Ht).
  split; [exact Ho|]. split; [exact Hf|]. split; [exact Ht|]. split.
  - intros req. apply handler_status_404.
  - intros Hfit req Hres Hnone.
    rewrite (handler_unmatched _ _ _ Hfit Hsetup Hres Hnone). reflexivity.
Qed.

Lemma no_redirects_witness :
  snd (Lookup (router (srv_of cfg_slash)) "GET" "/a/") = true
  /\ snd (handler (srv_of cfg_slash) (MkRequest "GET" "/a/"))
     = Respond [("Content-Type", "application/json")] 404 notFoundBody.
Proof.
  split; [vm_compute; reflexivity|].
  apply (proj2 (proj2 (proj2 (proj2 (no_redirects cfg_slash (srv_of cfg_slash)
                                       ltac:(vm_compute; reflexivity))))) eq_refl
           (MkRequest "GET" "/a/") eq_refl).
  miss_cases.
Defined.

(** C10 as stated fails: with GET /a and a wildcard route /:x/, a GET
    request for /a/ (the registered /a plus a trailing slash) reaches the
    wildcard handler instead of the routing-miss 404.  And past 255
    wildcards even a request matching no pattern at all can reach a
    handler ([cfg_spurious]). *)
Lemma no_redirects_counterexample :
  (Setup cfg_slash_overlap = Some (srv_of cfg_slash_overlap)
   /\ handler (srv_of cfg_slash_overlap) (MkRequest "GET" "/a/") = ([], Invoke h2 [("x", "a")])
   /\ response_status (snd (handler (srv_of cfg_slash_overlap) (MkRequest "GET" "/a/")))
      <> Some 404%Z)
  /\ (Setup cfg_spurious = Some (srv_of cfg_spurious)
      /\ reserved req_spurious = false
      /\ (forall svc ep m, In svc (Services cfg_spurious) -> In ep (Endpoints svc) ->
            In m (Methods ep) -> path_matches (Path ep) (URL_Path req_spurious) = None)
      /\ response_status (snd (handler (srv_of cfg_spurious) req_spurious)) <> Some 404%Z).
Proof.
  split.
  - split; [vm_compute; reflexivity|]. split; [vm_compute; reflexivity|].
    vm_compute. discriminate.
  - destruct spurious_dispatch as (_ & Hs & Hr & Hn & _ & Hi).
    split; [exact Hs|]. split; [exact Hr|]. split; [exact Hn|].
    destruct (snd (handler (srv_of cfg_spurious) req_spurious)) eqn:E; simpl;
      [discriminate | discriminate | simpl in Hi; discriminate Hi].
Qed.

(** ** Further properties of the runtime *)

Lemma string_app_assoc a b c : (a ++ b) ++ c = a ++ (b ++ c).
Proof. induction a as [|x a IH]; simpl; congruence. Qed.

Lemma string_app_nil_r a : a ++ EmptyString = a.
Proof. induction a as [|x a IH]; simpl; congruence. Qed.

Lemma fold_Write_sent bs : forall c b,
  fold_left Write bs (MkRW (Some c) b) = MkRW (Some c) (b ++ concat_bytes bs).
Proof.
  induction bs as [|x bs IH]; intros c b.
  - simpl. rewrite string_app_nil_r. reflexivity.
  - change (fold_left Write bs (MkRW (Some c) (b ++ x))
            = MkRW (Some c) (b ++ (x ++ concat_bytes bs))).
    rewrite IH, string_app_assoc. reflexivity.
Qed.

Lemma fold_Write_fresh b bs :
  fold_left Write (b :: bs) rw_fresh = MkRW (Some 200%Z) (concat_bytes (b :: bs)).
Proof.
  change (fold_left Write bs (MkRW (Some 200%Z) b) = MkRW (Some 200%Z) (concat_bytes (b :: bs))).
  rewrite fold_Write_sent. reflexivity.
Qed.

(** Families that encode without error are written one after the other. *)
Lemma encode_loop_prefix enc pre l w :
  (forall mf, In mf pre -> enc_err (enc mf) = None) ->
  encode_loop enc (pre ++ l)%list w = encode_loop enc l (fold_left Write (all_writes enc pre) w).
Proof.
  revert w. induction pre as [|mf pre IH]; intros w Hok; [reflexivity|].
  simpl. rewrite (Hok mf (or_introl eq_refl)).
  rewrite IH by (intros mf' Hin; apply Hok; right; exact Hin).
  rewrite fold_left_app. reflexivity.
Qed.

(** A request to /__encore.ScrapeMetrics whose [metrics.Gather()] fails is
    answered, on any server and with any method, with status 500 and the
    text "could not gather metrics: " followed by the error. *)
Theorem scrape_gather_error (err : string) (enc : MetricFamily -> EncodeResult)
    (srv : Server) (req : Request) :
  URL_Path req = "/__encore.ScrapeMetrics" ->
  serve (Err err) enc srv req rw_fresh
  = Some (MkRW (Some 500%Z) ("could not gather metrics: " ++ err ++ nl)).
Proof.
  intros Hp.
  assert (Hres : reserved req = true) by (unfold reserved, endpoint_id; rewrite Hp; reflexivity).
  unfold serve. rewrite (handler_reserved _ _ Hres). unfold endpoint_id. rewrite Hp.
  reflexivity.
Qed.

Lemma scrape_gather_error_witness :
  serve (Err "gather failed") enc_ok (srv_of cfg_shadow)
        (MkRequest "POST" "/__encore.ScrapeMetrics") rw_fresh
  = Some (MkRW (Some 500%Z) ("could not gather metrics: gather failed" ++ nl)).
Proof. apply scrape_gather_error. reflexivity. Defined.

(** When every family encodes, the scrape answers 200 with the bytes the
    encoder wrote, one family after the other, in the order [Gather]
    returned them. *)
Theorem scrape_all_encoded (enc : MetricFamily -> EncodeResult) (mfs : list MetricFamily) :
  (forall mf, In mf mfs -> enc_err (enc mf) = None) ->
  final_status (scrapeMetrics (Ok mfs) enc rw_fresh) = 200%Z
  /\ rw_body (scrapeMetrics (Ok mfs) enc rw_fresh) = concat_bytes (all_writes enc mfs).
Proof.
  intros H. unfold scrapeMetrics.
  rewrite <- (app_nil_r mfs), (encode_loop_prefix _ _ [] _ H), app_nil_r. simpl.
  destruct (all_writes enc mfs) as [|b bs].
  - split; reflexivity.
  - rewrite fold_Write_fresh. split; reflexivity.
Qed.

Lemma scrape_all_encoded_witness :
  rw_body (scrapeMetrics (Ok [mf_a; mf_b]) enc_ok rw_fresh) = "<a><b>".
Proof.
  apply (proj2 (scrape_all_encoded enc_ok [mf_a; mf_b]
                  ltac:(intros mf _; reflexivity))).
Defined.

(** When a family fails to encode, the scrape stops there (later families
    are not encoded) and appends "could not encode metrics: " and the error
    to everything written so far, the bytes the failing [Encode] call wrote
    included; the status is 500 only when no [Write] happened before the
    failure, otherwise the 200 sent by the first write stands. *)
Theorem scrape_encode_error (enc : MetricFamily -> EncodeResult)
    (pre : list MetricFamily) (mf : MetricFamily) (rest : list MetricFamily) (err : string) :
  (forall mf', In mf' pre -> enc_err (enc mf') = None) ->
  enc_err (enc mf) = Some err ->
  scrapeMetrics (Ok (pre ++ mf :: rest)%list) enc rw_fresh
  = MkRW (Some (match (all_writes enc pre ++ enc_writes (enc mf))%list with
                | [] => 500%Z | _ => 200%Z end))
         (concat_bytes (all_writes enc pre ++ enc_writes (enc mf))%list
          ++ "could not encode metrics: " ++ err ++ nl).
Proof.
  intros H Hmf. unfold scrapeMetrics.
  rewrite (encode_loop_prefix _ _ _ _ H). simpl. rewrite Hmf.
  rewrite <- fold_left_app.
  destruct (all_writes enc pre ++ enc_writes (enc mf))%list as [|b bs].
  - reflexivity.
  - rewrite fold_Write_fresh. unfold Error, WriteHeader, Write. simpl.
    rewrite !string_app_assoc. reflexivity.
Qed.

Lemma scrape_encode_error_witness :
  scrapeMetrics (Ok [mf_a; mf_b; mf_a]) enc_fail_b rw_fresh
  = MkRW (Some 200%Z) ("<a><b" ++ "could not encode metrics: bad family" ++ nl).
Proof.
  refine (eq_trans (scrape_encode_error enc_fail_b [mf_a] mf_b [mf_a] "bad family" _ eq_refl) _).
  - intros mf' [<- | []]. reflexivity.
  - reflexivity.
Defined.

Lemma dial_loop_none_iff dial k : forall i,
  snd (dial_loop dial i k) = None <-> (forall j, i <= j <= i + k -> dial j <> None).
Proof.
  induction k as [|k IH]; intros i; simpl.
  - destruct (dial i) as [err|] eqn:Hd; simpl; split.
    + intros _ j Hj. replace j with i by lia. congruence.
    + reflexivity.
    + discriminate.
    + intros H. exfalso. apply (H i); [lia | exact Hd].
  - destruct (dial i) as [err|] eqn:Hd.
    + destruct (dial_loop dial (S i) k) as [evs r] eqn:E. simpl.
      specialize (IH (S i)). rewrite E in IH. simpl in IH. rewrite IH.
      split.
      * intros H j Hj. destruct (Nat.eq_dec j i) as [->|Hne]; [congruence|].
        apply H. lia.
      * intros H j Hj. apply H. lia.
    + simpl. split; [discriminate|].
      intros H. exfalso. apply (H i); [lia | exact Hd].
Qed.

(** The log-socket dial loop makes the process exit exactly when all 121
    attempts (0 to 120) fail. *)
Theorem dial_gives_up_iff (dial : nat -> option string) :
  snd (dial_loop dial 0 120) = None <-> (forall i, i <= 120 -> dial i <> None).
Proof.
  rewrite dial_loop_none_iff. split; intros H i Hi; apply H; lia.
Qed.

Lemma dial_loop_success dial n : forall i k,
  n <= k -> dial (i + n) = None ->
  (forall j, i <= j < i + n -> dial j <> None) ->
  dial_loop dial i k
  = (flat_map (fun j => [DialError (dial_err (dial j)); Sleep1s]) (seq i n), Some (i + n)).
Proof.
  induction n as [|n IH]; intros i k Hk Hn Hbefore.
  - rewrite Nat.add_0_r in *. simpl. destruct k; simpl; rewrite Hn; reflexivity.
  - destruct k as [|k]; [lia|].
    simpl. destruct (dial i) as [err|] eqn:Hd.
    + rewrite (IH (S i) k) by (try lia; try (replace (S i + n) with (i + S n) by lia; exact Hn);
                                intros j Hj; apply Hbefore; lia).
      replace (S i + n) with (i + S n) by lia. reflexivity.
    + exfalso. apply (Hbefore i); [lia | exact Hd].
Qed.

(** When attempt [n] is the first dial that succeeds, the loop logs one
    dial error and sleeps one second for each earlier attempt, in order,
    and keeps the socket of attempt [n]. *)
Theorem dial_first_success (dial : nat -> option string) (n : nat) :
  n <= 120 -> dial n = None -> (forall j, j < n -> dial j <> None) ->
  dial_loop dial 0 120
  = (flat_map (fun j => [DialError (dial_err (dial j)); Sleep1s]) (seq 0 n), Some n).
Proof.
  intros Hn Hd Hb. apply (dial_loop_success dial n 0 120); auto.
  intros j Hj. apply Hb. lia.
Qed.

Lemma dial_first_success_witness :
  dial_loop dial_third 0 120
  = ([DialError "no such file"; Sleep1s; DialError "no such file"; Sleep1s], Some 2).
Proof.
  apply (dial_first_success dial_third 2); [lia | reflexivity |].
  intros j Hj. unfold dial_third. destruct (Nat.ltb_spec j 2); [discriminate | lia].
Defined.

Lemma dial_loop_some dial k : forall i evs n,
  dial_loop dial i k = (evs, Some n) -> i <= n <= i + k /\ dial n = None.
Proof.
  induction k as [|k IH]; intros i evs n; simpl;
    destruct (dial i) as [err|] eqn:Hd.
  - discriminate.
  - intros [= _ <-]. split; [lia | exact Hd].
  - destruct (dial_loop dial (S i) k) as [evs' r] eqn:E. intros [= _ ->].
    destruct (IH _ _ _ E). split; [lia | assumption].
  - intros [= _ <-]. split; [lia | exact Hd].
Qed.

(** [setupLogging] redirects stdout and stderr exactly when one of the 121
    dial attempts succeeds, [sock.File()] succeeds and both [Dup2] calls
    succeed; in every other case the process exits. *)
Theorem setupLogging_redirects_iff (dial : nat -> option string)
    (file_err : option string) (dup2 : nat -> option string) :
  snd (setupLogging dial file_err dup2) = Redirected
  <-> (exists i, i <= 120 /\ dial i = None)
      /\ file_err = None /\ dup2 1 = None /\ dup2 2 = None.
Proof.
  unfold setupLogging.
  destruct (dial_loop dial 0 120) as [evs sock] eqn:E.
  destruct sock as [n|].
  - destruct (dial_loop_some _ _ _ _ _ E) as [Hn Hd].
    destruct file_err, (dup2 1), (dup2 2); simpl; split; intros H;
      first [ discriminate H
            | destruct H as (_ & H1 & H2 & H3); discriminate
            | reflexivity
            | split; [exists n; split; [lia | exact Hd] | repeat split] ].
  - assert (Hall := proj1 (dial_gives_up_iff dial) ltac:(rewrite E; reflexivity)).
    simpl. split; [discriminate|].
    intros ((i & Hi & Hd) & _). exfalso. exact (Hall i Hi Hd).
Qed.

(** Every handler [handler] invokes, on a server [Setup] built from a
    configuration whose paths hold at most 255 wildcards each, is the
    handler of a configured endpoint listing the request's method, "*" or
    the literal "__ENCORE_WILDCARD__", whose pattern matches the request
    path with exactly the parameters passed; and the path is outside the
    reserved namespace. *)
Theorem handler_invokes_configured (cfg : ServerConfig) (srv : Server) (req : Request)
    (h : Handle) (ps : Params) :
  wildcards_fit cfg = true ->
  Setup cfg = Some srv ->
  snd (handler srv req) = Invoke h ps ->
  reserved req = false
  /\ exists svc ep m, In svc (Services cfg) /\ In ep (Endpoints svc) /\ In m (Methods ep)
       /\ (m = Method req \/ m = "*" \/ m = wildcardMethod)
       /\ Handler ep = h /\ path_matches (Path ep) (URL_Path req) = Some ps.
Proof.
  intros Hfit Hsetup Hinv.
  destruct (reserved req) eqn:Hres.
  - rewrite (handler_reserved _ _ Hres) in Hinv.
    destruct (String.eqb _ _); discriminate.
  - split; [reflexivity|].
    destruct (Lookup (router srv) (Method req) (URL_Path req)) as [[[h'|] ps'] b'] eqn:Hg.
    + rewrite (handler_exact _ _ _ _ _ Hres Hg) in Hinv. injection Hinv as <- <-.
      destruct (lookup_sound _ _ _ _ _ _ _ Hfit Hsetup Hg)
        as (svc & ep & m & Hs & He & Hm & Hn & Hh & Hp).
      exists svc, ep, m. repeat split; auto.
      destruct (norm_method_inv _ _ Hn) as [? | [? | ?]]; auto.
    + destruct (Lookup (router srv) wildcardMethod (URL_Path req)) as [[[h''|] ps''] b''] eqn:Hw.
      * rewrite (handler_wildcard _ _ _ _ _ _ _ Hres Hg Hw) in Hinv. injection Hinv as <- <-.
        destruct (lookup_sound _ _ _ _ _ _ _ Hfit Hsetup Hw)
          as (svc & ep & m & Hs & He & Hm & Hn & Hh & Hp).
        exists svc, ep, m. repeat split; auto.
        destruct (norm_method_inv _ _ Hn) as [? | [? | ?]]; auto.
      * rewrite (handler_miss_tuple _ _ _ _ _ _ Hres Hg Hw) in Hinv. discriminate.
Qed.

Lemma handler_invokes_configured_witness :
  snd (handler (srv_of cfg_demo) (MkRequest "POST" "/orders/42")) = Invoke h2 [("id", "42")]
  /\ reserved (MkRequest "POST" "/orders/42") = false.
Proof.
  split; [vm_compute; reflexivity|].
  exact (proj1 (handler_invokes_configured cfg_demo (srv_of cfg_demo)
                  (MkRequest "POST" "/orders/42") h2 [("id", "42")] eq_refl
                  ltac:(vm_compute; reflexivity) ltac:(vm_compute; reflexivity))).
Defined.

(** ** Examples *)

Example demo_get :
  option_map (fun s => handler s (MkRequest "GET" "/orders/42")) (Setup cfg_demo)
  = Some ([], Invoke h1 [("id", "42")]).
Proof. vm_compute. reflexivity. Qed.

Example demo_post :
  option_map (fun s => handler s (MkRequest "POST" "/orders/42")) (Setup cfg_demo)
  = Some ([], Invoke h2 [("id", "42")]).
Proof. vm_compute. reflexivity. Qed.

Example demo_miss :
  option_map (fun s => fst (handler s (MkRequest "GET" "/orders.Create"))) (Setup cfg_demo)
  = Some [("orders", "Create")].
Proof. vm_compute. reflexivity. Qed.

(** A static path next to a parameter below it, and a parameter after
    static text in one segment. *)
Example users_dispatch :
  option_map (fun s => (handler s (MkRequest "GET" "/users/"),
                        handler s (MkRequest "GET" "/users/7"),
                        handler s (MkRequest "GET" "/user_ann"))) (Setup cfg_users)
  = Some (([], Invoke h1 []), ([], Invoke h2 [("id", "7")]), ([], Invoke h3 [("name", "ann")])).
Proof. vm_compute. reflexivity. Qed.

(** The empty method is a method like any other for the router. *)
Example empty_method_registered :
  option_map (fun s => Lookup (router s) EmptyString "/e") (Setup cfg_empty_method)
  = Some (Some h1, [], false).
Proof. vm_compute. reflexivity. Qed.

